(** * A bounded-concurrency HTTPS domain prober (main.go)

    Shallow embedding of [ReadDomainsFromCSV], [worker] and [main], and
    the properties of the load / dispatch / collect / summarise pipeline.

    Conventions of the embedding:
    - Go's [int] is a 64-bit two's complement integer: a [Z] with the
      wrap-around written out ([int_wrap]);
    - a Go slice is a view (length) on a backing array (capacity);
    - [encoding/csv] is modelled at the level of records: the input file is
      the sequence of records the tokenizer yields, and [Reader_Read] is the
      per-record logic of [csv.Reader.Read] (field count check included);
    - the goroutines of [main] are a transition system on [State], one
      scheduler [Event] per atomic action; what the network answers and how
      long a probe takes are carried by the event;
    - [fmt.Printf] calls and network requests are recorded in a trace. *)

From Stdlib Require Import ZArith Lia.
From stdpp Require Import gmap strings list fin_maps pretty.

Local Open Scope Z_scope.

(** ** Go integers *)

Definition int_wrap (z : Z) : Z := (z + 2 ^ 63) mod 2 ^ 64 - 2 ^ 63.
Definition int_add (a b : Z) : Z := int_wrap (a + b).
(** [x++] *)
Definition int_incr (x : Z) : Z := int_add x 1.

(** ** Go errors *)

(** The sentinel errors of [encoding/csv]. *)
Inductive csv_Err := ErrBareQuote | ErrQuote | ErrFieldCount.

(** Non-nil [error] values; a nilable error is [option error]. *)
Inductive error :=
| io_EOF
| os_PathError (msg : string)
| csv_ParseError (cause : csv_Err)
| fmt_Errorf (format : string) (arg : error)
| http_ErrUseLastResponse
| net_Error (msg : string).

Global Instance csv_Err_eq_dec : EqDecision csv_Err.
Proof. solve_decision. Defined.
Global Instance error_eq_dec : EqDecision error.
Proof. solve_decision. Defined.

(** ** Slices *)

Record slice (A : Type) := Slice { array : list A; len : nat }.
Arguments Slice {A} _ _.
Arguments array {A} _.
Arguments len {A} _.

Definition cap {A} (s : slice A) : nat := length (array s).
(** The elements a [range] loop over the slice visits. *)
Definition elems {A} (s : slice A) : list A := take (len s) (array s).
(** The nil slice: [var domains []Domain]. *)
Definition nil_slice {A} : slice A := Slice [] 0.

(** [s[:high]]. The language has it that for a slice operand the upper
    index bound is the capacity [cap(s)] rather than the length; out of
    range is a run-time panic ([None]). The result shares the backing
    array. *)
Definition reslice_to {A} (s : slice A) (high : nat) : option (slice A) :=
  if (high <=? cap s)%nat then Some (Slice (array s) high) else None.

(** The growth rule of [append] in the gc runtime (runtime/slice.go,
    [nextslicecap]): the needed length if doubling is not enough, double
    below 256 elements, and steps of a quarter (plus 192) beyond. The
    allocator then rounds the size up to a size class, which never lowers
    the capacity. [fuel] bounds the loop, which ends after a few rounds. *)
Fixpoint nextslicecap_loop (fuel newLen newcap : nat) : nat :=
  match fuel with
  | O => newcap
  | S fuel' =>
      let newcap' := (newcap + (newcap + 3 * 256) / 4)%nat in
      if (newLen <=? newcap')%nat then newcap'
      else nextslicecap_loop fuel' newLen newcap'
  end.

Definition nextslicecap (newLen oldCap : nat) : nat :=
  let doublecap := (oldCap + oldCap)%nat in
  if (doublecap <? newLen)%nat then newLen
  else if (oldCap <? 256)%nat then doublecap
  else nextslicecap_loop newLen newLen oldCap.

(** ** Data model of main.go *)

(** Domain represents a domain entry from the CSV *)
Record Domain := mkDomain { Name : string; Category : string }.

Global Instance Domain_eq_dec : EqDecision Domain.
Proof. solve_decision. Defined.

(** The zero value of [Domain]. *)
Definition Domain_zero : Domain := mkDomain "" "".

(** Result represents the result of checking a domain.  [Duration] is a
    [time.Duration], an int64 count of nanoseconds. *)
Record Result := mkResult {
  Result_Domain : Domain;
  StatusCode : Z;
  Error : option error;
  Duration : Z
}.

(** ** encoding/csv, record level *)

(** What the tokenizer makes of the next record of the file: its fields, or
    a quoting error. *)
Inductive RawRecord :=
| RawFields (fields : list string)
| RawBad (cause : csv_Err).

Record Reader := mkReader { FieldsPerRecord : Z; input : list RawRecord }.

(** [csv.NewReader]: [FieldsPerRecord] is 0, so the first record read fixes
    the number of fields of all later ones. *)
Definition csv_NewReader (file : list RawRecord) : Reader := mkReader 0 file.

(** The tail of [Reader.readRecord], once the record is tokenized: check
    or set the expected number of fields. *)
Definition readRecord (fpr : Z) (rec : RawRecord) : list string * option error * Z :=
  let '(dst, err) :=
    match rec with
    | RawFields fs => (fs, None)
    | RawBad c => ([], Some (csv_ParseError c))
    end in
  if 0 <? fpr then
    if negb (Z.of_nat (length dst) =? fpr) && bool_decide (err = None)
    then (dst, Some (csv_ParseError ErrFieldCount), fpr)
    else (dst, err, fpr)
  else if fpr =? 0 then (dst, err, Z.of_nat (length dst))
  else (dst, err, fpr).

(** [reader.Read()] *)
Definition Reader_Read (r : Reader) : list string * option error * Reader :=
  match input r with
  | [] => ([], Some io_EOF, r)
  | rec :: rest =>
      let '(dst, err, fpr) := readRecord (FieldsPerRecord r) rec in
      (dst, err, mkReader fpr rest)
  end.

(** ** The file system *)

Inductive OpenResult :=
| OpenFails (err : error)
| OpenOk (file : list RawRecord).

Definition FileSystem := string → OpenResult.

(** A URL with a space in the host does not parse; used in examples. *)
Definition example_NewRequest_err (url : string) : option error :=
  if bool_decide (url = "https://bad host")
  then Some (net_Error "parse: invalid character in host name")
  else None.

Section Prober.

(** The capacity [append] gives a slice that has to grow, from the needed
    length and the old capacity: chosen by the runtime. *)
Variable growslice : nat → nat → nat.

(** The error of [http.NewRequestWithContext(ctx, "GET", url, nil)], if
    any: whether [url.Parse] accepts the URL. *)
Variable NewRequest_err : string → option error.

(** [append(s, x)] *)
Definition append {A} (zero : A) (s : slice A) (x : A) : slice A :=
  if (len s <? cap s)%nat
  then Slice (<[len s := x]> (array s)) (S (len s))
  else
    let newcap := growslice (S (len s)) (cap s) in
    Slice (elems s ++ x :: replicate (newcap - S (len s)) zero) (S (len s)).

(** The [for] loop of [ReadDomainsFromCSV], by recursion on the records
    still unread; [fpr] is the reader's [FieldsPerRecord]. *)
Fixpoint read_loop (fpr : Z) (rest : list RawRecord) (domains : slice Domain)
  : slice Domain * option error :=
  match rest with
  | [] => (domains, None)
  | rec :: rest' =>
      let '(record, err, fpr') := readRecord fpr rec in
      match err with
      | Some e => (nil_slice, Some (fmt_Errorf "error reading record: %v" e))
      | None =>
          let domains' :=
            if (2 <=? length record)%nat
            then append Domain_zero domains
                   (mkDomain (nth 0 record "") (nth 1 record ""))
            else domains in
          read_loop fpr' rest' domains'
      end
  end.

(** ReadDomainsFromCSV reads domains from a CSV file *)
Definition ReadDomainsFromCSV (fs : FileSystem) (filename : string)
  : slice Domain * option error :=
  match fs filename with
  | OpenFails err => (nil_slice, Some (fmt_Errorf "error opening file: %v" err))
  | OpenOk file =>
      let reader := csv_NewReader file in
      let '(_, err, reader) := Reader_Read reader in
      match err with
      | Some e => (nil_slice, Some (fmt_Errorf "error reading header: %v" e))
      | None => read_loop (FieldsPerRecord reader) (input reader) nil_slice
      end
  end.

(** ** net/http: the client and its redirect policy *)

Record Response := mkResponse { Response_StatusCode : Z; Location : string }.

(** What the transport gives back for one request sent. *)
Inductive RoundTrip :=
| RTError (err : error)
| RTResponse (resp : Response).

(** [CheckRedirect] gets the upcoming request (its URL) and the requests
    made so far. *)
Record Client := mkClient {
  Timeout : Z;
  CheckRedirect : string → list string → option error
}.

Definition shouldRedirect (code : Z) : bool :=
  bool_decide (code ∈ [301; 302; 303; 307; 308]).

(** [client.Do(req)] for a GET without body.  [script] holds the answers
    of the transport to the successive requests of this call, in order; when
    it runs out the deadline passes.  Returns the response, the error and
    the URLs requested. *)
Fixpoint client_Do (c : Client) (url : string) (via : list string)
    (script : list RoundTrip) : option Response * option error * list string :=
  match script with
  | [] => (None, Some (net_Error "context deadline exceeded"), via ++ [url])
  | RTError err :: _ => (None, Some err, via ++ [url])
  | RTResponse resp :: script' =>
      if shouldRedirect (Response_StatusCode resp)
         && negb (bool_decide (Location resp = ""))
      then
        match CheckRedirect c (Location resp) (via ++ [url]) with
        | Some err =>
            if bool_decide (err = http_ErrUseLastResponse)
            then (Some resp, None, via ++ [url])
            else (Some resp, Some err, via ++ [url])
        | None => client_Do c (Location resp) (via ++ [url]) script'
        end
      else (Some resp, None, via ++ [url])
  end.

(** ** The worker *)

(** The client each worker creates: 10 s timeout (in nanoseconds), and a
    redirect policy that always answers [http.ErrUseLastResponse]. *)
Definition worker_client : Client :=
  mkClient (10 * 1000000000) (λ _ _, Some http_ErrUseLastResponse).

(** One iteration of the [for domain := range jobs] loop of [worker]: the
    results sent on [results], whether the iteration ends in
    [time.Sleep] (the request-construction branch [continue]s before it),
    and the URLs requested.  [elapsed] is what [time.Since(start)] reads. *)
Definition worker_body (domain : Domain) (script : list RoundTrip) (elapsed : Z)
  : list Result * bool * list string :=
  let url := "https://" +:+ Name domain in
  match NewRequest_err url with
  | Some err => ([mkResult domain 0 (Some err) elapsed], false, [])
  | None =>
      let '(resp, err, requested) := client_Do worker_client url [] script in
      match err with
      | Some e => ([mkResult domain 0 (Some e) elapsed], true, requested)
      | None =>
          let code := from_option Response_StatusCode 0 resp in
          ([mkResult domain code None elapsed], true, requested)
      end
  end.

(** ** What the program does to the outside: the trace *)

Inductive Arg :=
| AInt (n : Z)
| AStr (s : string)
| AErr (e : error)
| ADur (d : Z).

(** Format strings are kept as the source writes them (backslash-n for a
    newline). *)
Inductive IOEvent :=
| Printf (format : string) (args : list Arg)
| Println (s : string)
| LogFatalf (format : string) (args : list Arg)
| HttpGet (url : string).

(** ** The aggregator *)

Record Stats := mkStats { Total : Z; Success : Z; Failed : Z }.

Global Instance Stats_eq_dec : EqDecision Stats.
Proof. solve_decision. Defined.

(** The statistics variables of [main]. *)
Record Tally := mkTally {
  successful : Z;
  failed : Z;
  statusCodes : gmap Z Z;
  categoryStats : gmap string Stats
}.

Definition Tally_init : Tally := mkTally 0 0 ∅ ∅.

Definition icon_ok : string := "✅".
Definition icon_warn : string := "⚠️".

(** The body of [for result := range results]: the new statistics and the
    line printed. *)
Definition process_result (t : Tally) (result : Result) : Tally * IOEvent :=
  let category := Category (Result_Domain result) in
  let stats := default (mkStats 0 0 0) (categoryStats t !! category) in
  let stats := mkStats (int_incr (Total stats)) (Success stats) (Failed stats) in
  match Error result with
  | Some err =>
      let stats := mkStats (Total stats) (Success stats) (int_incr (Failed stats)) in
      (mkTally (successful t) (int_incr (failed t)) (statusCodes t)
               (<[category := stats]> (categoryStats t)),
       Printf "❌ %s (%s) - Error: %v [%v]\n"
              [AStr (Name (Result_Domain result));
               AStr (Category (Result_Domain result));
               AErr err; ADur (Duration result)])
  | None =>
      let stats := mkStats (Total stats) (int_incr (Success stats)) (Failed stats) in
      let code := StatusCode result in
      let statusCodes' :=
        <[code := int_incr (default 0 (statusCodes t !! code))]> (statusCodes t) in
      let statusIcon := if 400 <=? code then icon_warn else icon_ok in
      (mkTally (int_incr (successful t)) (failed t) statusCodes'
               (<[category := stats]> (categoryStats t)),
       Printf "%s %s (%s) - Status: %d [%v]\n"
              [AStr statusIcon;
               AStr (Name (Result_Domain result));
               AStr (Category (Result_Domain result));
               AInt code; ADur (Duration result)])
  end.

(** The aggregator over a sequence of results, in arrival order. *)
Definition process_results (t : Tally) (rs : list Result) : Tally * list IOEvent :=
  foldl (λ '(t, out) r, let '(t', line) := process_result t r in (t', out ++ [line]))
        (t, []) rs.

(** The summary; the two [range] loops over maps visit the entries in an
    order the runtime picks: [codes] and [cats]. *)
Definition summary (ndomains : nat) (t : Tally)
    (codes : list (Z * Z)) (cats : list (string * Stats)) : list IOEvent :=
  [Println "\n=====================================";
   Println "SUMMARY";
   Println "=====================================";
   Printf "Total domains checked: %d\n" [AInt (Z.of_nat ndomains)];
   Printf "Successful: %d\n" [AInt (successful t)];
   Printf "Failed: %d\n\n" [AInt (failed t)];
   Println "Status Code Distribution:"]
  ++ map (λ '(code, count), Printf "  %d: %d domains\n" [AInt code; AInt count]) codes
  ++ [Println "\nCategory Statistics:"]
  ++ map (λ '(category, stats),
          Printf "  %s: Total=%d, Success=%d, Failed=%d\n"
                 [AStr category; AInt (Total stats); AInt (Success stats);
                  AInt (Failed stats)]) cats.

(** ** main: the goroutines as a transition system *)

Definition numWorkers : nat := 10.
Definition csvFile : string := "domains2.csv".

(** Where a worker goroutine stands. *)
Inductive WorkerState :=
| WRecv                      (* at [range jobs], waiting for a job *)
| WProbing (domain : Domain) (* holds a job; request not yet answered *)
| WSleep                     (* in [time.Sleep] *)
| WExit.                     (* left the loop; [wg.Done()] ran *)

Global Instance WorkerState_eq_dec : EqDecision WorkerState.
Proof. solve_decision. Defined.

(** Where the main goroutine stands. *)
Inductive MainPC :=
| MSend (rest : list Domain) (* in [for _, domain := range domains] *)
| MDrain                     (* in [for result := range results] *)
| MDone.                     (* summary printed, [main] returned *)

Global Instance MainPC_eq_dec : EqDecision MainPC.
Proof. solve_decision. Defined.

Record State := mkState {
  domains : list Domain;     (* the re-sliced list; channel capacities *)
  jobs : list Domain;
  jobs_closed : bool;
  results : list Result;
  results_closed : bool;
  workers : list WorkerState;
  pc : MainPC;
  tally : Tally;
  trace : list IOEvent
}.

(** The atomic actions the scheduler interleaves. *)
Inductive Event :=
| EvSend                       (* main: [jobs <- domain], or after the last
                                  one [close(jobs)], start of the closer
                                  goroutine and the two banner lines *)
| EvRecvJob (w : nat)          (* worker w: next iteration of [range jobs] *)
| EvProbe (w : nat) (script : list RoundTrip) (elapsed : Z)
                               (* worker w: request, then [results <- result] *)
| EvWake (w : nat)             (* worker w: [time.Sleep] returns *)
| EvCloseResults               (* closer: [wg.Wait()] returns; [close(results)] *)
| EvCollect                    (* main: one iteration of [range results] *)
| EvSummary (codes : list (Z * Z)) (cats : list (string * Stats)).
                               (* main: [results] closed and drained *)

Definition set_worker (s : State) (w : nat) (ws : WorkerState) : State :=
  mkState (domains s) (jobs s) (jobs_closed s) (results s) (results_closed s)
          (<[w := ws]> (workers s)) (pc s) (tally s) (trace s).

Definition all_exited (ws : list WorkerState) : bool :=
  forallb (λ w, match w with WExit => true | _ => false end) ws.

Definition step (ev : Event) (s : State) : option State :=
  match ev with
  | EvSend =>
      match pc s with
      | MSend (domain :: rest) =>
          if (length (jobs s) <? length (domains s))%nat
          then Some (mkState (domains s) (jobs s ++ [domain]) (jobs_closed s)
                             (results s) (results_closed s) (workers s)
                             (MSend rest) (tally s) (trace s))
          else None
      | MSend [] =>
          Some (mkState (domains s) (jobs s) true
                        (results s) (results_closed s) (workers s)
                        MDrain Tally_init
                        (trace s ++ [Println "Processing domains...";
                                     Println "====================================="]))
      | _ => None
      end
  | EvRecvJob w =>
      match workers s !! w with
      | Some WRecv =>
          match jobs s with
          | domain :: rest =>
              Some (mkState (domains s) rest (jobs_closed s)
                            (results s) (results_closed s)
                            (<[w := WProbing domain]> (workers s))
                            (pc s) (tally s) (trace s))
          | [] => if jobs_closed s then Some (set_worker s w WExit) else None
          end
      | _ => None
      end
  | EvProbe w script elapsed =>
      match workers s !! w with
      | Some (WProbing domain) =>
          if (length (results s) <? length (domains s))%nat
          then
            let '(sent, sleeps, requested) := worker_body domain script elapsed in
            Some (mkState (domains s) (jobs s) (jobs_closed s)
                          (results s ++ sent) (results_closed s)
                          (<[w := if sleeps : bool then WSleep else WRecv]> (workers s))
                          (pc s) (tally s)
                          (trace s ++ map HttpGet requested))
          else None
      | _ => None
      end
  | EvWake w =>
      match workers s !! w with
      | Some WSleep => Some (set_worker s w WRecv)
      | _ => None
      end
  | EvCloseResults =>
      match pc s with
      | MDrain =>
          if all_exited (workers s) && negb (results_closed s)
          then Some (mkState (domains s) (jobs s) (jobs_closed s)
                             (results s) true (workers s)
                             (pc s) (tally s) (trace s))
          else None
      | _ => None
      end
  | EvCollect =>
      match pc s, results s with
      | MDrain, result :: rest =>
          let '(tally', line) := process_result (tally s) result in
          Some (mkState (domains s) (jobs s) (jobs_closed s)
                        rest (results_closed s) (workers s)
                        MDrain tally' (trace s ++ [line]))
      | _, _ => None
      end
  | EvSummary codes cats =>
      match pc s, results s with
      | MDrain, [] =>
          if results_closed s
             && bool_decide (codes ≡ₚ map_to_list (statusCodes (tally s)))
             && bool_decide (cats ≡ₚ map_to_list (categoryStats (tally s)))
          then Some (mkState (domains s) (jobs s) (jobs_closed s)
                             [] (results_closed s) (workers s)
                             MDone (tally s)
                             (trace s ++ summary (length (domains s)) (tally s) codes cats))
          else None
      | _, _ => None
      end
  end.

(** A schedule, action by action; [None] when it names an action that
    cannot run in the state reached (a blocked goroutine). *)
Fixpoint exec (sched : list Event) (s : State) : option State :=
  match sched with
  | [] => Some s
  | ev :: sched' =>
      match step ev s with
      | Some s' => exec sched' s'
      | None => None
      end
  end.

(** The state once the workers are started and nothing is sent yet. *)
Definition init_state (ds : list Domain) : State :=
  mkState ds [] false [] false (replicate numWorkers WRecv) (MSend ds) Tally_init
          [Printf "Loaded %d domains from CSV\n" [AInt (Z.of_nat (length ds))];
           Printf "Starting %d workers...\n\n" [AInt (Z.of_nat numWorkers)]].

(** How [main] begins: load, re-slice, start the workers. *)
Inductive Start :=
| Fatal (out : list IOEvent)         (* [log.Fatalf]: message, exit status 1 *)
| Panicked (high capacity : nat)     (* slice bounds out of range [:high]
                                        with capacity [capacity] *)
| Started (s : State).

Definition main_start (fs : FileSystem) : Start :=
  let '(domains, err) := ReadDomainsFromCSV fs csvFile in
  match err with
  | Some e => Fatal [LogFatalf "Error reading CSV: %v" [AErr e]]
  | None =>
      match reslice_to domains 200 with
      | None => Panicked 200 (cap domains)
      | Some domains => Started (init_state (elems domains))
      end
  end.

(** How a run of [main] ends under a schedule. *)
Inductive Outcome :=
| ExitFatal (out : list IOEvent)
| ExitPanic (high capacity : nat)
| ExitOk (s : State)                 (* [main] returned *)
| Unfinished (s : State)             (* the schedule stops earlier *)
| Blocked.                           (* the schedule names a blocked action *)

Definition main (fs : FileSystem) (sched : list Event) : Outcome :=
  match main_start fs with
  | Fatal out => ExitFatal out
  | Panicked high capacity => ExitPanic high capacity
  | Started s0 =>
      match exec sched s0 with
      | None => Blocked
      | Some s => match pc s with MDone => ExitOk s | _ => Unfinished s end
      end
  end.

(** What the run did to the outside. *)
Definition Outcome_trace (o : Outcome) : list IOEvent :=
  match o with
  | ExitFatal out => out
  | ExitPanic _ _ => []
  | ExitOk s | Unfinished s => trace s
  | Blocked => []
  end.

Definition is_HttpGet (e : IOEvent) : bool :=
  match e with HttpGet _ => true | _ => false end.

(** ** Quantities the properties speak of *)

(** The sum of [f] over the entries of a map. *)
Definition msum `{Countable K} {A} (f : A → Z) (m : gmap K A) : Z :=
  map_fold (λ _ x acc, f x + acc) 0 m.

(** The sum of one field of the per-category statistics, over all
    categories. *)
Definition sum_stats (f : Stats → Z) (m : gmap string Stats) : Z := msum f m.

(** The sum of the status-code histogram. *)
Definition sum_codes (m : gmap Z Z) : Z := msum id m.

(** A slice never reaches beyond its backing array. *)
Definition slice_ok {A} (s : slice A) : Prop := (len s ≤ cap s)%nat.

(** An empty slice the loader returns has no backing array. *)
Definition slice_fresh {A} (s : slice A) : Prop := len s = 0%nat → cap s = 0%nat.

(** No request went out. *)
Definition no_network (out : list IOEvent) : Prop :=
  Forall (λ e, is_HttpGet e = false) out.

(** Every category entry balances, in Go's arithmetic. *)
Definition tally_balanced (t : Tally) : Prop :=
  ∀ c st, categoryStats t !! c = Some st →
          Total st = int_add (Success st) (Failed st).

(** The statistics are the exact counts of [n] results: no counter has
    wrapped around. *)
Record tally_exact (n : Z) (t : Tally) : Prop := mk_tally_exact {
  te_successful : 0 ≤ successful t;
  te_failed : 0 ≤ failed t;
  te_total : successful t + failed t = n;
  te_cat : ∀ c st, categoryStats t !! c = Some st →
                   0 ≤ Success st ∧ 0 ≤ Failed st
                   ∧ Total st = Success st + Failed st;
  te_sum_total : sum_stats Total (categoryStats t) = n;
  te_sum_success : sum_stats Success (categoryStats t) = successful t;
  te_sum_failed : sum_stats Failed (categoryStats t) = failed t;
  te_codes : ∀ code k, statusCodes t !! code = Some k → 0 ≤ k;
  te_sum_codes : sum_codes (statusCodes t) = successful t
}.

(** The Domain a data row of at least two columns stands for. *)
Definition row_domain (record : list string) : Domain :=
  mkDomain (nth 0 record "") (nth 1 record "").

(** A file as the tokenizer sees it: a header and data rows, all well
    quoted. *)
Definition csv_file (header : list string) (rows : list (list string)) : OpenResult :=
  OpenOk (RawFields header :: map RawFields rows).


(** The domains held by the goroutines of a state: not yet sent, queued,
    under probe, and answered but not yet collected. *)
Definition probing (ws : list WorkerState) : list Domain :=
  omap (λ w, match w with WProbing d => Some d | _ => None end) ws.

Definition unsent (p : MainPC) : list Domain :=
  match p with MSend rest => rest | _ => [] end.

Definition pending (s : State) : list Domain :=
  unsent (pc s) ++ jobs s ++ probing (workers s) ++ map Result_Domain (results s).

(** The domain a worker holds. *)
Definition held (w : WorkerState) : list Domain :=
  match w with WProbing d => [d] | _ => [] end.

(** What every state of a run that starts from the domains [ds] satisfies:
    the domains in flight together with those of the results counted so far
    are the domains given, up to order. *)
Record Inv (ds : list Domain) (s : State) : Prop := mk_Inv {
  inv_domains : domains s = ds;
  inv_workers : length (workers s) = numWorkers;
  inv_closed : jobs_closed s = true → unsent (pc s) = [];
  inv_open : jobs_closed s = false → ∃ rest, pc s = MSend rest;
  inv_exit : ∀ w, workers s !! w = Some WExit →
                  jobs s = [] ∧ jobs_closed s = true;
  inv_results_closed : results_closed s = true → all_exited (workers s) = true;
  inv_done : pc s = MDone → results s = [] ∧ results_closed s = true;
  inv_tally : ∃ rs, tally s = fst (process_results Tally_init rs)
                    ∧ ds ≡ₚ pending s ++ map Result_Domain rs
                    ∧ (∀ rest, pc s = MSend rest → rs = [])
}.

(** A bound on the number of actions a state can still take: every
    action lowers it. *)
Definition worker_weight (w : WorkerState) : nat :=
  match w with WRecv => 1 | WProbing _ => 4 | WSleep => 2 | WExit => 0 end.

Definition weight (s : State) : nat :=
  (match pc s with
   | MSend rest => 3 + 5 * length rest
   | MDrain => 2
   | MDone => 0
   end
   + 4 * length (jobs s)
   + sum_list_with worker_weight (workers s)
   + length (results s)
   + (if results_closed s then 0 else 1))%nat.

(** The number of elements of a list that satisfy [P]. *)
Definition count {A} (P : A → Prop) `{∀ x, Decision (P x)} (l : list A) : Z :=
  Z.of_nat (length (filter P l)).

(** The statistics are the counts of the results [rs]: how many succeeded
    and failed, per category how many there are and how many succeeded and
    failed, and per status code how many succeeded with it. A category or
    a status code without result has no entry. *)
Record tally_counts (rs : list Result) (t : Tally) : Prop := mk_tally_counts {
  tc_successful : successful t = count (λ r, Error r = None) rs;
  tc_failed : failed t = count (λ r, Error r ≠ None) rs;
  tc_category : ∀ c,
    categoryStats t !! c
    = if decide (count (λ r, Category (Result_Domain r) = c) rs = 0) then None
      else Some (mkStats
                   (count (λ r, Category (Result_Domain r) = c) rs)
                   (count (λ r, Category (Result_Domain r) = c ∧ Error r = None) rs)
                   (count (λ r, Category (Result_Domain r) = c ∧ Error r ≠ None) rs));
  tc_code : ∀ code,
    statusCodes t !! code
    = if decide (count (λ r, Error r = None ∧ StatusCode r = code) rs = 0) then None
      else Some (count (λ r, Error r = None ∧ StatusCode r = code) rs)
}.

(** The URL a worker requests for a domain, and the request it sends: none
    when the URL does not parse. *)
Definition url_of (d : Domain) : string := "https://" +:+ Name d.

Definition request_of (d : Domain) : option string :=
  match NewRequest_err (url_of d) with
  | Some _ => None
  | None => Some (url_of d)
  end.

(** The two sides of a trace: the URLs requested, and what was printed. *)
Definition requested (out : list IOEvent) : list string :=
  omap (λ e, match e with HttpGet u => Some u | _ => None end) out.

Definition printed (out : list IOEvent) : list IOEvent :=
  filter (λ e, is_HttpGet e = false) out.

(** The line the aggregator prints for a result. *)
Definition result_line (r : Result) : IOEvent := snd (process_result Tally_init r).

(** The lines printed before the workers are started, and the banner. *)
Definition start_lines (ndomains : nat) : list IOEvent :=
  [Printf "Loaded %d domains from CSV\n" [AInt (Z.of_nat ndomains)];
   Printf "Starting %d workers...\n\n" [AInt (Z.of_nat numWorkers)]].

Definition banner_lines : list IOEvent :=
  [Println "Processing domains...";
   Println "====================================="].

(** A state of a run on the domains [ds], with the results [rs] main has
    collected so far, in the order of their arrival. *)
Record Hist (ds : list Domain) (s : State) (rs : list Result) : Prop := mk_Hist {
  hist_domains : domains s = ds;
  hist_tally : tally s = fst (process_results Tally_init rs);
  hist_perm : ds ≡ₚ pending s ++ map Result_Domain rs;
  hist_requested :
    requested (trace s)
    ++ omap request_of (unsent (pc s) ++ jobs s ++ probing (workers s))
    ≡ₚ omap request_of ds;
  hist_printed :
    match pc s with
    | MSend _ => rs = [] ∧ printed (trace s) = start_lines (length ds)
    | MDrain =>
        printed (trace s)
        = start_lines (length ds) ++ banner_lines ++ map result_line rs
    | MDone =>
        ∃ codes cats,
          codes ≡ₚ map_to_list (statusCodes (tally s))
          ∧ cats ≡ₚ map_to_list (categoryStats (tally s))
          ∧ printed (trace s)
            = start_lines (length ds) ++ banner_lines ++ map result_line rs
              ++ summary (length ds) (tally s) codes cats
    end
}.

(** ** Schedules and files used as examples *)

(** Main sends every job and closes; the jobs are served one after the
    other, job [i] by worker [i mod numWorkers] with the answers
    [scripts i]; the workers leave; the closer closes; main collects. *)
Definition serve (scripts : nat → list RoundTrip) (i : nat) : list Event :=
  let w := (i mod numWorkers)%nat in
  [EvRecvJob w; EvProbe w (scripts i) (Z.of_nat i + 1); EvWake w].

Definition schedule_upto_summary (n : nat) (scripts : nat → list RoundTrip) : list Event :=
  replicate (S n) EvSend
  ++ flat_map (serve scripts) (seq 0 n)
  ++ map EvRecvJob (seq 0 numWorkers)
  ++ [EvCloseResults]
  ++ replicate n EvCollect.

Definition schedule (s0 : State) (n : nat) (scripts : nat → list RoundTrip) : list Event :=
  let sched := schedule_upto_summary n scripts in
  match exec sched s0 with
  | Some s =>
      sched ++ [EvSummary (map_to_list (statusCodes (tally s)))
                          (map_to_list (categoryStats (tally s)))]
  | None => sched
  end.

Definition example_rows (n : nat) : list (list string) :=
  map (λ i, ["site" +:+ pretty i +:+ ".example"; "cat" +:+ pretty (i mod 3)%nat]) (seq 0 n).

Definition example_fs (n : nat) : FileSystem :=
  λ _, csv_file ["domain"; "category"] (example_rows n).

(** The state a run ends in (or stops in). *)
Definition Outcome_state (o : Outcome) : State :=
  match o with
  | ExitOk s | Unfinished s => s
  | _ => init_state []
  end.

(** A file with a one-column header: every data row is short. *)
Definition one_column_fs : FileSystem :=
  λ _, csv_file ["domain"] [["a.example"]; ["b.example"]].

(** A two-column file with one short data row, and the same file without
    that row. *)
Definition short_row_fs : FileSystem :=
  λ _, csv_file ["domain"; "category"] [["example.com"]].

Definition no_row_fs : FileSystem :=
  λ _, csv_file ["domain"; "category"] [].


(** Two domains, and the state in which worker 0 holds the first of
    them. *)
Definition two_domains : list Domain :=
  [mkDomain "bad host" "test"; mkDomain "example.com" "tech"].

Definition holding_state : State :=
  default (init_state [])
          (exec [EvSend; EvSend; EvSend; EvRecvJob 0] (init_state two_domains)).

(** Every third server answers 200, the next redirects with 301, the
    next does not answer at all. *)
Definition example_scripts (i : nat) : list RoundTrip :=
  match (i mod 3)%nat with
  | O => [RTResponse (mkResponse 200 "")]
  | S O => [RTResponse (mkResponse 301 "https://www.example/"); RTResponse (mkResponse 200 "")]
  | _ => []
  end.

(** The example schedule for the run of [main] on a file of [n] rows. *)
Definition example_schedule (n : nat) : list Event :=
  match main_start (example_fs n) with
  | Started s0 => schedule s0 200 example_scripts
  | _ => []
  end.

Definition example_run (n : nat) : Outcome :=
  main (example_fs n) (example_schedule n).

(** Three results: two answers in one category, a failure in another. *)
Definition example_results : list Result :=
  [mkResult (mkDomain "a.example" "tech") 200 None 5;
   mkResult (mkDomain "b.example" "tech") 404 None 7;
   mkResult (mkDomain "c.example" "news") 0 (Some (net_Error "timeout")) 9].

(** A run that has sent two jobs, the first of them received by worker 0. *)
Definition early_schedule : list Event := [EvSend; EvSend; EvRecvJob 0].

(** What a completed run has counted. *)
Definition Outcome_counted (o : Outcome) : option Z :=
  match o with
  | ExitOk s => Some (successful (tally s) + failed (tally s))
  | _ => None
  end.

(** * Properties *)

(** ** Slices *)

Lemma nil_slice_ok {A} : slice_ok (@nil_slice A).
Proof. unfold slice_ok, cap. simpl. lia. Qed.

Lemma len_append {A} (zero : A) s x : len (append zero s x) = S (len s).
Proof. unfold append. by destruct (len s <? cap s)%nat. Qed.

Lemma elems_append {A} (zero : A) s x :
  slice_ok s → elems (append zero s x) = elems s ++ [x].
Proof.
  unfold slice_ok, append, elems, cap. intros Hok.
  destruct (Nat.ltb_spec (len s) (length (array s))) as [Hlt|Hge]; simpl.
  - rewrite (take_S_r _ _ x) by (by apply list_lookup_insert_eq).
    by rewrite take_insert_ge.
  - assert (Hlen : length (take (len s) (array s)) = len s)
      by (rewrite length_take; lia).
    rewrite (take_S_r _ _ x).
    + by rewrite take_app_length'.
    + rewrite lookup_app_r by lia. by rewrite Hlen, Nat.sub_diag.
Qed.

Lemma append_ok {A} (zero : A) s x : slice_ok s → slice_ok (append zero s x).
Proof.
  unfold slice_ok, append, elems, cap. intros Hok.
  destruct (Nat.ltb_spec (len s) (length (array s))) as [Hlt|Hge]; simpl.
  - rewrite length_insert. lia.
  - rewrite length_app, length_take. simpl. lia.
Qed.

Lemma elems_length {A} (s : slice A) : slice_ok s → length (elems s) = len s.
Proof. unfold slice_ok, elems, cap. intros. rewrite length_take. lia. Qed.

(** ** The loader *)

(** A record with the expected number of fields passes the check of
    [readRecord] and leaves the expectation as it is. *)
Lemma readRecord_consistent fpr fields :
  Z.of_nat (length fields) = fpr →
  readRecord fpr (RawFields fields) = (fields, None, fpr).
Proof.
  intros <-. unfold readRecord.
  destruct (Z.ltb_spec 0 (Z.of_nat (length fields))) as [Hpos|Hzero].
  - by rewrite Z.eqb_refl.
  - destruct (Z.eqb_spec (Z.of_nat (length fields)) 0) as [->|Hne]; [done|lia].
Qed.

(** The errors of [readRecord] are parse errors, never [io.EOF]. *)
Lemma readRecord_not_EOF fpr rec record e fpr' :
  readRecord fpr rec = (record, Some e, fpr') → e ≠ io_EOF.
Proof.
  unfold readRecord. destruct rec as [fields|cause];
    repeat case_match; intros [= <- <- <-]; done.
Qed.

(** One round of [read_loop] is one round of the source's loop: call
    [reader.Read()], stop on [io.EOF], fail on any other error, and keep
    the record when it has at least two fields. *)
Lemma read_loop_Reader_Read fpr rest s :
  read_loop fpr rest s
  = let '(record, err, reader) := Reader_Read (mkReader fpr rest) in
    match err with
    | Some e =>
        if bool_decide (e = io_EOF) then (s, None)
        else (nil_slice, Some (fmt_Errorf "error reading record: %v" e))
    | None =>
        read_loop (FieldsPerRecord reader) (input reader)
          (if (2 <=? length record)%nat
           then append Domain_zero s (mkDomain (nth 0 record "") (nth 1 record ""))
           else s)
    end.
Proof.
  destruct rest as [|rec rest]; [done|].
  cbn [read_loop]. unfold Reader_Read. cbn [input FieldsPerRecord].
  destruct (readRecord fpr rec) as [[record [e|]] fpr'] eqn:Hrec; [|done].
  apply readRecord_not_EOF in Hrec. by rewrite bool_decide_eq_false_2.
Qed.

(** On rows that all have the expected number of fields, the loop appends
    the rows of at least two columns, in order, and reports no error. *)
Lemma read_loop_consistent fpr rows s :
  Forall (λ r, Z.of_nat (length r) = fpr) rows →
  slice_ok s →
  ∃ s', read_loop fpr (map RawFields rows) s = (s', None)
        ∧ slice_ok s'
        ∧ elems s' = elems s ++ map row_domain (filter (λ r, 2 ≤ length r)%nat rows).
Proof.
  intros Hrows. revert s.
  induction Hrows as [|r rows Hr _ IH]; intros s Hok; cbn [map read_loop].
  - exists s. by rewrite app_nil_r.
  - rewrite (readRecord_consistent _ _ Hr).
    rewrite filter_cons. fold (row_domain r).
    destruct (Nat.leb_spec 2 (length r)) as [Hge|Hlt].
    + destruct (IH (append Domain_zero s (row_domain r))) as (s' & Hrun & Hok' & Hel).
      { by apply append_ok. }
      exists s'. split; [done|]. split; [done|].
      rewrite Hel, elems_append by done.
      rewrite decide_True by done. by rewrite <- app_assoc.
    + destruct (IH s Hok) as (s' & Hrun & Hok' & Hel).
      exists s'. split; [done|]. split; [done|].
      rewrite decide_False by lia. done.
Qed.

(** Reading the header: the expectation becomes the header's number of
    fields. *)
Lemma ReadDomainsFromCSV_header fs filename header rest :
  fs filename = OpenOk (RawFields header :: rest) →
  ReadDomainsFromCSV fs filename
  = read_loop (Z.of_nat (length header)) rest nil_slice.
Proof.
  intros Hfs. unfold ReadDomainsFromCSV. rewrite Hfs. simpl.
  reflexivity.
Qed.

Lemma ReadDomainsFromCSV_consistent fs filename header rows :
  fs filename = csv_file header rows →
  Forall (λ r, length r = length header) rows →
  ∃ ds, ReadDomainsFromCSV fs filename = (ds, None)
        ∧ slice_ok ds
        ∧ elems ds = map row_domain (filter (λ r, 2 ≤ length r)%nat rows).
Proof.
  intros Hfs Hrows.
  rewrite (ReadDomainsFromCSV_header _ _ _ _ Hfs).
  destruct (read_loop_consistent (Z.of_nat (length header)) rows nil_slice)
    as (ds & Hrun & Hok & Hel).
  - eapply Forall_impl; [exact Hrows|]. simpl. intros r ->. done.
  - apply nil_slice_ok.
  - exists ds. by rewrite Hel in *.
Qed.

(** C2. For every valid input file (well quoted, every data row with the
    header's number of fields) whose H data rows each have at least 2
    columns, [ReadDomainsFromCSV] returns without error exactly H Domain
    records, in file order, the header excluded, with column 0 as the name
    and column 1 as the category. *)
Theorem ReadDomainsFromCSV_valid_file fs filename header rows :
  fs filename = csv_file header rows →
  Forall (λ r, length r = length header) rows →
  Forall (λ r, 2 ≤ length r)%nat rows →
  ∃ ds, ReadDomainsFromCSV fs filename = (ds, None)
        ∧ len ds = length rows
        ∧ elems ds = map (λ r, mkDomain (nth 0 r "") (nth 1 r "")) rows.
Proof.
  intros Hfs Hcount Hcols.
  destruct (ReadDomainsFromCSV_consistent _ _ _ _ Hfs Hcount) as (ds & Hrun & Hok & Hel).
  assert (Hall : filter (λ r, 2 ≤ length r)%nat rows = rows).
  { clear -Hcols. induction Hcols as [|r rows Hr _ IH]; [done|].
    rewrite filter_cons, decide_True by done. by rewrite IH. }
  rewrite Hall in Hel.
  exists ds. split; [done|]. split; [|done].
  rewrite <- (elems_length ds Hok), Hel. by rewrite length_map.
Qed.

(** C3. In a file whose data rows all have the header's number
    of fields, every data row with fewer than 2 columns is left out of the
    returned sequence, the other rows are returned in order, and no error
    is reported. *)
Theorem ReadDomainsFromCSV_short_rows_skipped fs filename header rows :
  fs filename = csv_file header rows →
  Forall (λ r, length r = length header) rows →
  ∃ ds, ReadDomainsFromCSV fs filename = (ds, None)
        ∧ elems ds = map row_domain (filter (λ r, 2 ≤ length r)%nat rows)
        ∧ ∀ r, r ∈ rows → (length r < 2)%nat →
               r ∉ filter (λ r, 2 ≤ length r)%nat rows.
Proof.
  intros Hfs Hcount.
  destruct (ReadDomainsFromCSV_consistent _ _ _ _ Hfs Hcount) as (ds & Hrun & Hok & Hel).
  exists ds. split; [done|]. split; [done|].
  intros r _ Hshort Hin. apply list_elem_of_filter in Hin as [Hge _]. lia.
Qed.



(** ** Integers and sums over maps *)

Lemma int_wrap_small z : - 2 ^ 63 ≤ z < 2 ^ 63 → int_wrap z = z.
Proof. intros Hz. unfold int_wrap. rewrite Z.mod_small; lia. Qed.

Lemma int_wrap_add_l a b : int_wrap (int_wrap a + b) = int_wrap (a + b).
Proof.
  unfold int_wrap.
  replace ((a + 2 ^ 63) mod 2 ^ 64 - 2 ^ 63 + b + 2 ^ 63)
    with ((a + 2 ^ 63) mod 2 ^ 64 + b) by lia.
  rewrite Zplus_mod_idemp_l. do 2 f_equal. lia.
Qed.

Lemma int_wrap_add_r a b : int_wrap (a + int_wrap b) = int_wrap (a + b).
Proof. rewrite (Z.add_comm a), int_wrap_add_l. f_equal. lia. Qed.

Lemma int_incr_small x : 0 ≤ x → x + 1 < 2 ^ 63 → int_incr x = x + 1.
Proof. intros. unfold int_incr, int_add. apply int_wrap_small. lia. Qed.

Section msum.
Context `{Countable K} {A : Type} (f : A → Z).
Implicit Types m : gmap K A.

Lemma msum_empty : msum f (∅ : gmap K A) = 0.
Proof. unfold msum. apply map_fold_empty. Qed.

Lemma msum_insert_fresh m k x :
  m !! k = None → msum f (<[k:=x]> m) = f x + msum f m.
Proof.
  intros Hk. unfold msum.
  rewrite map_fold_insert_L; [done| |done]. intros. lia.
Qed.

Lemma msum_delete m k x :
  m !! k = Some x → msum f m = f x + msum f (delete k m).
Proof.
  intros Hk. unfold msum.
  rewrite (map_fold_delete_L _ _ k x m); [done| |done]. intros. lia.
Qed.

Lemma msum_insert m k x :
  msum f (<[k:=x]> m) = f x + msum f m - from_option f 0 (m !! k).
Proof.
  destruct (m !! k) as [y|] eqn:Hk; simpl.
  - rewrite <- insert_delete_eq.
    rewrite msum_insert_fresh by apply lookup_delete_eq.
    rewrite (msum_delete m k y Hk). lia.
  - rewrite msum_insert_fresh by done. lia.
Qed.

Lemma msum_nonneg m :
  (∀ k x, m !! k = Some x → 0 ≤ f x) → 0 ≤ msum f m.
Proof.
  induction m as [|k x m Hk IH] using map_ind; intros Hpos.
  - by rewrite msum_empty.
  - rewrite msum_insert_fresh by done.
    assert (0 ≤ f x) by (apply (Hpos k); apply lookup_insert_eq).
    assert (0 ≤ msum f m); [|lia].
    apply IH. intros j y Hj. apply (Hpos j).
    rewrite lookup_insert_ne; [done|]. intros ->. congruence.
Qed.

Lemma msum_lookup_le m k x :
  (∀ k x, m !! k = Some x → 0 ≤ f x) → m !! k = Some x → f x ≤ msum f m.
Proof.
  intros Hpos Hk. rewrite (msum_delete m k x Hk).
  assert (0 ≤ msum f (delete k m)); [|lia].
  apply msum_nonneg. intros j y Hj.
  apply lookup_delete_Some in Hj as [_ Hj]. eauto.
Qed.
End msum.

(** ** The aggregator *)

Lemma process_results_snoc t rs r :
  process_results t (rs ++ [r])
  = (fst (process_result (fst (process_results t rs)) r),
     snd (process_results t rs) ++ [snd (process_result (fst (process_results t rs)) r)]).
Proof.
  unfold process_results. rewrite foldl_snoc.
  destruct (foldl _ _ rs) as [t' out]. simpl.
  by destruct (process_result t' r).
Qed.

Lemma process_result_balanced t r :
  tally_balanced t → tally_balanced (fst (process_result t r)).
Proof.
  intros Hbal c st. unfold process_result.
  set (cat := Category (Result_Domain r)).
  assert (Hst0 : ∀ st0, st0 = default (mkStats 0 0 0) (categoryStats t !! cat) →
                        Total st0 = int_add (Success st0) (Failed st0)).
  { intros st0 ->. destruct (categoryStats t !! cat) as [st1|] eqn:Hc; simpl.
    - by apply (Hbal cat).
    - reflexivity. }
  specialize (Hst0 _ eq_refl).
  destruct (Error r); simpl; intros Hlook;
    (destruct (decide (cat = c)) as [->|Hne];
     [rewrite lookup_insert_eq in Hlook; injection Hlook as <-; simpl
     |rewrite lookup_insert_ne in Hlook by done; by apply (Hbal c)]).
  - rewrite Hst0. unfold int_incr, int_add.
    rewrite int_wrap_add_l, int_wrap_add_r. f_equal. lia.
  - rewrite Hst0. unfold int_incr, int_add.
    rewrite !int_wrap_add_l. f_equal. lia.
Qed.

Lemma Tally_init_balanced : tally_balanced Tally_init.
Proof. intros c st Hc. simpl in Hc. by rewrite lookup_empty in Hc. Qed.

Lemma process_results_balanced rs :
  tally_balanced (fst (process_results Tally_init rs)).
Proof.
  induction rs as [|r rs IH] using rev_ind.
  - apply Tally_init_balanced.
  - rewrite process_results_snoc. simpl. by apply process_result_balanced.
Qed.

Lemma Tally_init_exact : tally_exact 0 Tally_init.
Proof.
  split; simpl; done.
Qed.

Lemma process_result_exact n t r :
  tally_exact n t → n + 1 < 2 ^ 63 →
  tally_exact (n + 1) (fst (process_result t r)).
Proof.
  intros [Hs Hf Htot Hcat HsumT HsumS HsumF Hcodes HsumC] Hn.
  unfold process_result.
  set (cat := Category (Result_Domain r)).
  set (st0 := default (mkStats 0 0 0) (categoryStats t !! cat)).
  assert (Hfrom : ∀ f : Stats → Z, f (mkStats 0 0 0) = 0 →
                    from_option f 0 (categoryStats t !! cat) = f st0).
  { intros f Hf0. unfold st0. by destruct (categoryStats t !! cat). }
  assert (Hst0 : 0 ≤ Success st0 ∧ 0 ≤ Failed st0
                 ∧ Total st0 = Success st0 + Failed st0 ∧ Total st0 ≤ n).
  { unfold st0. destruct (categoryStats t !! cat) as [st1|] eqn:Hc; simpl.
    - destruct (Hcat _ _ Hc) as (HS & HF & HT). repeat split; try done.
      rewrite <- HsumT. apply (msum_lookup_le Total _ cat); [|done].
      intros k x Hk. destruct (Hcat _ _ Hk) as (? & ? & ->). lia.
    - lia. }
  destruct Hst0 as (HS0 & HF0 & HT0 & HTn).
  assert (HincT : int_incr (Total st0) = Total st0 + 1) by (apply int_incr_small; lia).
  destruct (Error r) as [err|]; simpl.
  - assert (HincF : int_incr (Failed st0) = Failed st0 + 1) by (apply int_incr_small; lia).
    assert (Hincf : int_incr (failed t) = failed t + 1) by (apply int_incr_small; lia).
    rewrite HincT, HincF, Hincf.
    split; simpl.
    + done.
    + lia.
    + lia.
    + intros c st. destruct (decide (cat = c)) as [->|Hne].
      * rewrite lookup_insert_eq. intros [= <-]. simpl. lia.
      * rewrite lookup_insert_ne by done. apply Hcat.
    + unfold sum_stats in *. rewrite msum_insert, Hfrom by done. simpl. lia.
    + unfold sum_stats in *. rewrite msum_insert, Hfrom by done. simpl. lia.
    + unfold sum_stats in *. rewrite msum_insert, Hfrom by done. simpl. lia.
    + done.
    + done.
  - assert (HincS : int_incr (Success st0) = Success st0 + 1) by (apply int_incr_small; lia).
    assert (Hincs : int_incr (successful t) = successful t + 1) by (apply int_incr_small; lia).
    set (k0 := default 0 (statusCodes t !! StatusCode r)).
    assert (Hk0 : 0 ≤ k0 ≤ n ∧ from_option id 0 (statusCodes t !! StatusCode r) = k0).
    { unfold k0. destruct (statusCodes t !! StatusCode r) as [k|] eqn:Hk; simpl.
      - split; [|done]. split; [by eapply Hcodes|].
        assert (id k ≤ msum id (statusCodes t))
          by (apply (msum_lookup_le id _ (StatusCode r)); [apply Hcodes|done]).
        unfold sum_codes in HsumC. unfold id in *. lia.
      - lia. }
    destruct Hk0 as (Hk0 & Hfromk).
    assert (Hinck : int_incr k0 = k0 + 1) by (apply int_incr_small; lia).
    rewrite HincT, HincS, Hincs. fold k0. rewrite Hinck.
    split; simpl.
    + lia.
    + done.
    + lia.
    + intros c st. destruct (decide (cat = c)) as [->|Hne].
      * rewrite lookup_insert_eq. intros [= <-]. simpl. lia.
      * rewrite lookup_insert_ne by done. apply Hcat.
    + unfold sum_stats in *. rewrite msum_insert, Hfrom by done. simpl. lia.
    + unfold sum_stats in *. rewrite msum_insert, Hfrom by done. simpl. lia.
    + unfold sum_stats in *. rewrite msum_insert, Hfrom by done. simpl. lia.
    + intros code k. destruct (decide (StatusCode r = code)) as [->|Hne].
      * rewrite lookup_insert_eq. intros [= <-]. lia.
      * rewrite lookup_insert_ne by done. apply Hcodes.
    + unfold sum_codes in *. rewrite msum_insert, Hfromk. unfold id at 1. lia.
Qed.

Lemma process_results_exact rs :
  Z.of_nat (length rs) < 2 ^ 63 →
  tally_exact (Z.of_nat (length rs)) (fst (process_results Tally_init rs)).
Proof.
  induction rs as [|r rs IH] using rev_ind; intros Hlen.
  - apply Tally_init_exact.
  - rewrite length_app in *. simpl in *.
    rewrite process_results_snoc. simpl.
    replace (Z.of_nat (length rs + 1)) with (Z.of_nat (length rs) + 1) by lia.
    apply process_result_exact; [apply IH|]; lia.
Qed.

(** ** The worker *)

(** Our redirect policy makes the first answer final. *)
Lemma client_Do_worker_client url via script :
  client_Do worker_client url via script
  = match script with
    | [] => (None, Some (net_Error "context deadline exceeded"), via ++ [url])
    | RTError err :: _ => (None, Some err, via ++ [url])
    | RTResponse resp :: _ => (Some resp, None, via ++ [url])
    end.
Proof.
  destruct script as [|[err|resp] script']; simpl; try done.
  by destruct (shouldRedirect _ && _).
Qed.

(** Each iteration sends exactly one result, for the domain it received. *)
Lemma worker_body_one domain script elapsed :
  ∃ r, fst (fst (worker_body domain script elapsed)) = [r]
       ∧ Result_Domain r = domain.
Proof.
  unfold worker_body. destruct (NewRequest_err _); [by eexists|].
  destruct (client_Do _ _ _ _) as [[resp [e|]] requested]; by eexists.
Qed.

(** ** The goroutines *)

Lemma probing_insert ws w old new :
  ws !! w = Some old →
  ∃ l1 l2, probing ws = l1 ++ held old ++ l2
           ∧ probing (<[w:=new]> ws) = l1 ++ held new ++ l2.
Proof.
  intros Hw.
  exists (probing (take w ws)), (probing (drop (S w) ws)).
  assert (Hlen : (w < length ws)%nat) by (by eapply lookup_lt_Some).
  split.
  - rewrite <- (take_drop_middle ws w old Hw) at 1.
    unfold probing. rewrite omap_app. simpl. by destruct old.
  - rewrite insert_take_drop by done.
    unfold probing. rewrite omap_app. simpl. by destruct new.
Qed.

Lemma all_exited_lookup ws w x :
  all_exited ws = true → ws !! w = Some x → x = WExit.
Proof.
  unfold all_exited. rewrite forallb_forall. intros Hall Hw.
  assert (Hin : In x ws) by (apply list_elem_of_In; by eapply list_elem_of_lookup_2).
  specialize (Hall x Hin). by destruct x.
Qed.

Lemma all_exited_probing ws : all_exited ws = true → probing ws = [].
Proof.
  induction ws as [|[] ws IH]; simpl; done.
Qed.

Lemma init_state_Inv ds : Inv ds (init_state ds).
Proof.
  split; try done.
  - intros _. by eexists.
  - intros w Hw. change (replicate numWorkers WRecv !! w = Some WExit) in Hw.
    apply lookup_replicate in Hw as [? _]. done.
  - exists []. split; [done|]. split; [|done].
    unfold pending. simpl. by rewrite !app_nil_r.
Qed.

(** Every action of the scheduler keeps the invariant. *)
Lemma step_Inv ds ev s s' : Inv ds s → step ev s = Some s' → Inv ds s'.
Proof.
  intros [Hdom Hws Hclosed Hopen Hexit Hrc Hdone (rs & Htally & Hperm & Hsend)] Hstep.
  assert (Hnoexit : ∀ rest, pc s = MSend rest → rest ≠ [] →
                            ∀ w, workers s !! w ≠ Some WExit).
  { intros rest Hpc Hne w Hw. destruct (Hexit w Hw) as [_ Hc].
    specialize (Hclosed Hc). rewrite Hpc in Hclosed. simpl in Hclosed. done. }
  destruct ev as [|w|w script elapsed|w| | |codes cats]; simpl in Hstep.
  - (* EvSend *)
    destruct (pc s) as [[|d rest]| |] eqn:Hpc; try done.
    + injection Hstep as <-. split; simpl; try done.
      * intros w Hw. destruct (Hexit w Hw) as [-> _]. done.
      * exists []. split; [done|]. split; [|done].
        rewrite (Hsend [] eq_refl) in Hperm.
        revert Hperm. unfold pending. simpl. by rewrite Hpc.
    + destruct (length (jobs s) <? length (domains s))%nat; [|done].
      injection Hstep as <-. split; simpl; try done.
      * intros Hc. specialize (Hclosed Hc). done.
      * intros _. by eexists.
      * intros w Hw. by destruct (Hnoexit (d :: rest) eq_refl ltac:(done) w).
      * exists rs. split; [done|]. split.
        -- rewrite Hperm. unfold pending. rewrite Hpc. simpl.
           solve_Permutation.
        -- intros rest' _. by apply (Hsend (d :: rest)).
  - (* EvRecvJob *)
    destruct (workers s !! w) as [[]|] eqn:Hw; try done.
    destruct (jobs s) as [|d rest] eqn:Hjobs.
    + destruct (jobs_closed s) eqn:Hjc; [|done].
      injection Hstep as <-. unfold set_worker. split; simpl; try done.
      * by rewrite length_insert.
      * by rewrite Hjc.
      * by rewrite Hjc.
      * intros Hr. specialize (Hrc Hr).
        by pose proof (all_exited_lookup _ _ _ Hrc Hw).
      * exists rs. split; [done|]. split; [|done].
        rewrite Hperm. unfold pending. simpl. rewrite Hjobs.
        destruct (probing_insert _ _ _ WExit Hw) as (l1 & l2 & -> & ->). done.
    + injection Hstep as <-. split; simpl; try done.
      * by rewrite length_insert.
      * intros w' Hw'. destruct (decide (w = w')) as [->|Hne].
        -- rewrite list_lookup_insert_eq in Hw' by (by eapply lookup_lt_Some). done.
        -- rewrite list_lookup_insert_ne in Hw' by done.
           destruct (Hexit w' Hw') as [? _]. done.
      * intros Hr. specialize (Hrc Hr).
        by pose proof (all_exited_lookup _ _ _ Hrc Hw).
      * exists rs. split; [done|]. split; [|done].
        rewrite Hperm. unfold pending. simpl. rewrite Hjobs.
        destruct (probing_insert _ _ _ (WProbing d) Hw) as (l1 & l2 & -> & ->).
        simpl. solve_Permutation.
  - (* EvProbe *)
    destruct (workers s !! w) as [[|d| |]|] eqn:Hw; try done.
    destruct (length (results s) <? length (domains s))%nat; [|done].
    destruct (worker_body_one d script elapsed) as (r & Hone & Hr).
    destruct (worker_body d script elapsed) as [[sent sleeps] requested].
    simpl in Hone. subst sent.
    injection Hstep as <-. split; simpl; try done.
    + by rewrite length_insert.
    + intros w' Hw'. destruct (decide (w = w')) as [->|Hne].
      * rewrite list_lookup_insert_eq in Hw' by (by eapply lookup_lt_Some).
        by destruct sleeps.
      * rewrite list_lookup_insert_ne in Hw' by done. by apply (Hexit w').
    + intros Hcl. specialize (Hrc Hcl).
      by pose proof (all_exited_lookup _ _ _ Hrc Hw).
    + intros Hd. destruct (Hdone Hd) as [_ Hcl]. specialize (Hrc Hcl).
      by pose proof (all_exited_lookup _ _ _ Hrc Hw).
    + exists rs. split; [done|]. split; [|done].
      rewrite Hperm. unfold pending. simpl.
      destruct (probing_insert _ _ _ (if sleeps then WSleep else WRecv) Hw)
        as (l1 & l2 & -> & ->).
      replace (held (if sleeps then WSleep else WRecv)) with (@nil Domain)
        by (by destruct sleeps).
      simpl. rewrite map_app. simpl. rewrite Hr.
      solve_Permutation.
  - (* EvWake *)
    destruct (workers s !! w) as [[]|] eqn:Hw; try done.
    injection Hstep as <-. unfold set_worker. split; simpl; try done.
    + by rewrite length_insert.
    + intros w' Hw'. destruct (decide (w = w')) as [->|Hne].
      * rewrite list_lookup_insert_eq in Hw' by (by eapply lookup_lt_Some). done.
      * rewrite list_lookup_insert_ne in Hw' by done. by apply (Hexit w').
    + intros Hcl. specialize (Hrc Hcl).
      by pose proof (all_exited_lookup _ _ _ Hrc Hw).
    + exists rs. split; [done|]. split; [|done].
      rewrite Hperm. unfold pending. simpl.
      destruct (probing_insert _ _ _ WRecv Hw) as (l1 & l2 & -> & ->). done.
  - (* EvCloseResults *)
    destruct (pc s) eqn:Hpc; try done.
    destruct (all_exited (workers s)) eqn:Hall; simpl in Hstep; [|done].
    destruct (negb (results_closed s)); [|done].
    injection Hstep as <-. split; simpl; try done.
    exists rs. split; [done|]. split; [|done].
    revert Hperm. unfold pending. simpl. by rewrite Hpc.
  - (* EvCollect *)
    destruct (pc s) eqn:Hpc; try done.
    destruct (results s) as [|r rest] eqn:Hres; [done|].
    destruct (process_result (tally s) r) as [tally' line] eqn:Hpr.
    injection Hstep as <-. split; simpl; try done.
    exists (rs ++ [r]). split; [|split; [|done]].
    + rewrite process_results_snoc. simpl. by rewrite <- Htally, Hpr.
    + rewrite Hperm. unfold pending. simpl. rewrite Hpc, Hres. simpl.
      rewrite map_app. simpl. solve_Permutation.
  - (* EvSummary *)
    destruct (pc s) eqn:Hpc; try done.
    destruct (results s) as [|r rest] eqn:Hres; [|done].
    destruct (results_closed s) eqn:Hcl; [|done].
    destruct (_ && _); [|done].
    injection Hstep as <-. split; simpl; try done.
    + intros Hjc. by destruct (Hopen Hjc).
    + exists rs. split; [done|]. split; [|done].
      revert Hperm. unfold pending. simpl. by rewrite Hpc, Hres.
Qed.

Lemma exec_Inv ds sched s s' : Inv ds s → exec sched s = Some s' → Inv ds s'.
Proof.
  revert s. induction sched as [|ev sched IH]; intros s Hinv Hexec; simpl in Hexec.
  - by injection Hexec as <-.
  - destruct (step ev s) as [s1|] eqn:Hstep; [|done].
    eapply IH; [|done]. by eapply step_Inv.
Qed.

(** Once [main] has returned nothing is in flight. *)
Lemma Inv_done_pending ds s : Inv ds s → pc s = MDone → pending s = [].
Proof.
  intros [Hdom Hws Hclosed _ Hexit Hrc Hdone _] Hpc.
  destruct (Hdone Hpc) as [Hres Hcl]. specialize (Hrc Hcl).
  assert (H0 : workers s !! 0%nat = Some WExit).
  { destruct (workers s !! 0%nat) as [x|] eqn:Hx.
    - by rewrite (all_exited_lookup _ _ _ Hrc Hx).
    - apply lookup_ge_None in Hx. rewrite Hws in Hx. unfold numWorkers in Hx. lia. }
  destruct (Hexit _ H0) as [Hjobs _].
  unfold pending. by rewrite Hpc, Hjobs, Hres, (all_exited_probing _ Hrc).
Qed.

(** The results counted when [main] has returned are those of the domains
    given, each once. *)
Lemma Inv_done_counted ds s :
  Inv ds s → pc s = MDone →
  ∃ rs, tally s = fst (process_results Tally_init rs)
        ∧ map Result_Domain rs ≡ₚ ds.
Proof.
  intros Hinv Hpc. pose proof (Inv_done_pending _ _ Hinv Hpc) as Hpend.
  destruct (inv_tally _ _ Hinv) as (rs & Htally & Hperm & _).
  exists rs. split; [done|]. by rewrite Hperm, Hpend.
Qed.

(** At most as many results are counted as there are domains. *)
Lemma Inv_counted_le ds s :
  Inv ds s →
  ∃ rs, tally s = fst (process_results Tally_init rs)
        ∧ (length rs ≤ length ds)%nat.
Proof.
  intros Hinv. destruct (inv_tally _ _ Hinv) as (rs & Htally & Hperm & _).
  exists rs. split; [done|].
  apply Permutation_length in Hperm. rewrite length_app, length_map in Hperm. lia.
Qed.

(** ** main *)

(** How [main] starts, from what the loader returns. *)
Lemma main_start_loaded fs loaded :
  ReadDomainsFromCSV fs csvFile = (loaded, None) →
  main_start fs
  = if (200 <=? cap loaded)%nat
    then Started (init_state (take 200 (array loaded)))
    else Panicked 200 (cap loaded).
Proof.
  intros Hload. unfold main_start. rewrite Hload. unfold reslice_to.
  by destruct (200 <=? cap loaded)%nat.
Qed.

Lemma main_start_error fs loaded e :
  ReadDomainsFromCSV fs csvFile = (loaded, Some e) →
  main_start fs = Fatal [LogFatalf "Error reading CSV: %v" [AErr e]].
Proof. intros Hload. unfold main_start. by rewrite Hload. Qed.

(** A run that gets past the start has loaded a slice of capacity at least
    200 and works on the first 200 entries of its backing array. *)
Lemma main_running fs sched s :
  main fs sched = ExitOk s ∨ main fs sched = Unfinished s →
  ∃ loaded, ReadDomainsFromCSV fs csvFile = (loaded, None)
            ∧ (200 ≤ cap loaded)%nat
            ∧ exec sched (init_state (take 200 (array loaded))) = Some s
            ∧ Inv (take 200 (array loaded)) s.
Proof.
  unfold main. intros Hmain.
  destruct (ReadDomainsFromCSV fs csvFile) as [loaded [e|]] eqn:Hload.
  { rewrite (main_start_error _ _ _ Hload) in Hmain. by destruct Hmain. }
  rewrite (main_start_loaded _ _ Hload) in Hmain.
  destruct (Nat.leb_spec 200 (cap loaded)) as [Hcap|Hcap]; [|by destruct Hmain].
  destruct (exec sched _) as [s1|] eqn:Hexec; [|by destruct Hmain].
  assert (s1 = s) as ->.
  { destruct (pc s1); destruct Hmain as [Hm|Hm]; congruence. }
  exists loaded. split; [done|]. split; [done|]. split; [done|].
  eapply exec_Inv; [apply init_state_Inv|done].
Qed.

Lemma main_ExitOk_done fs sched s : main fs sched = ExitOk s → pc s = MDone.
Proof.
  unfold main. destruct (main_start fs); try done.
  destruct (exec sched s0) as [s1|]; [|done].
  destruct (pc s1) eqn:Hpc; try done. by intros [= <-].
Qed.

(** What the loader returns is a well-formed slice, and has no backing
    array when it is empty. *)
Lemma read_loop_shape fpr rest s :
  slice_ok s → slice_fresh s →
  slice_ok (fst (read_loop fpr rest s)) ∧ slice_fresh (fst (read_loop fpr rest s)).
Proof.
  revert fpr s. induction rest as [|rec rest IH]; intros fpr s Hok Hfresh;
    cbn [read_loop].
  - done.
  - destruct (readRecord fpr rec) as [[record [e|]] fpr'].
    + split; [apply nil_slice_ok|done].
    + destruct (2 <=? length record)%nat; [|by apply IH].
      apply IH; [by apply append_ok|].
      intros Hlen. by rewrite len_append in Hlen.
Qed.

Lemma ReadDomainsFromCSV_shape fs filename :
  slice_ok (fst (ReadDomainsFromCSV fs filename))
  ∧ slice_fresh (fst (ReadDomainsFromCSV fs filename)).
Proof.
  unfold ReadDomainsFromCSV.
  destruct (fs filename) as [err|file]; [split; [apply nil_slice_ok|done]|].
  destruct (Reader_Read (csv_NewReader file)) as [[dst [e|]] reader].
  - split; [apply nil_slice_ok|done].
  - apply read_loop_shape; [apply nil_slice_ok|done].
Qed.


(** A worker under probe always finds room on [results]: its send never
    blocks. *)
Lemma Inv_probing_room ds s w domain :
  Inv ds s → workers s !! w = Some (WProbing domain) →
  (length (results s) < length (domains s))%nat.
Proof.
  intros Hinv Hw. rewrite (inv_domains _ _ Hinv).
  destruct (inv_tally _ _ Hinv) as (rs & _ & Hperm & _).
  apply Permutation_length in Hperm. revert Hperm. unfold pending.
  destruct (probing_insert _ _ _ WRecv Hw) as (l1 & l2 & -> & _).
  rewrite !length_app, !length_map. simpl. lia.
Qed.

(** The action of a worker that holds a job: the result of its iteration
    goes to the end of [results]; main and the other workers stay as they
    are. *)
Lemma step_EvProbe s w domain script elapsed :
  workers s !! w = Some (WProbing domain) →
  (length (results s) < length (domains s))%nat →
  ∃ s', step (EvProbe w script elapsed) s = Some s'
        ∧ results s' = results s ++ fst (fst (worker_body domain script elapsed))
        ∧ pc s' = pc s
        ∧ tally s' = tally s
        ∧ (workers s' !! w = Some WSleep ∨ workers s' !! w = Some WRecv)
        ∧ ∀ w', w' ≠ w → workers s' !! w' = workers s !! w'.
Proof.
  intros Hw Hroom. simpl. rewrite Hw.
  destruct (Nat.ltb_spec (length (results s)) (length (domains s))); [|lia].
  destruct (worker_body domain script elapsed) as [[sent sleeps] requested].
  eexists. split; [done|]. simpl. repeat split.
  - rewrite list_lookup_insert_eq by (by eapply lookup_lt_Some).
    destruct sleeps; auto.
  - intros w' Hne. by rewrite list_lookup_insert_ne.
Qed.

(** ** Every run ends, and ends with [main] returning *)

Lemma worker_weight_insert ws w old new :
  ws !! w = Some old →
  (sum_list_with worker_weight (<[w:=new]> ws) + worker_weight old
   = sum_list_with worker_weight ws + worker_weight new)%nat.
Proof.
  intros Hw.
  assert (Hlen : (w < length ws)%nat) by (by eapply lookup_lt_Some).
  rewrite insert_take_drop by done.
  rewrite <- (take_drop_middle ws w old Hw) at 3.
  rewrite !sum_list_with_app. simpl. lia.
Qed.

(** Every action lowers the weight of the state. *)
Lemma step_weight ev s s' : step ev s = Some s' → (weight s' < weight s)%nat.
Proof.
  intros Hstep. destruct ev as [|w|w script elapsed|w| | |codes cats];
    simpl in Hstep.
  - destruct (pc s) as [[|d rest]| |] eqn:Hpc; try done.
    + injection Hstep as <-. unfold weight. simpl. rewrite Hpc. lia.
    + destruct (length (jobs s) <? length (domains s))%nat; [|done].
      injection Hstep as <-. unfold weight. simpl. rewrite Hpc, length_app.
      simpl. lia.
  - destruct (workers s !! w) as [[]|] eqn:Hw; try done.
    destruct (jobs s) as [|d rest] eqn:Hjobs.
    + destruct (jobs_closed s); [|done].
      injection Hstep as <-. unfold weight, set_worker. simpl. rewrite Hjobs.
      pose proof (worker_weight_insert _ _ _ WExit Hw). simpl in *. lia.
    + injection Hstep as <-. unfold weight. simpl. rewrite Hjobs.
      pose proof (worker_weight_insert _ _ _ (WProbing d) Hw). simpl in *. lia.
  - destruct (workers s !! w) as [[|d| |]|] eqn:Hw; try done.
    destruct (length (results s) <? length (domains s))%nat; [|done].
    destruct (worker_body_one d script elapsed) as (r & Hone & _).
    destruct (worker_body d script elapsed) as [[sent sleeps] requested].
    simpl in Hone. subst sent.
    injection Hstep as <-. unfold weight. simpl. rewrite length_app. simpl.
    pose proof (worker_weight_insert _ _ _ (if sleeps then WSleep else WRecv) Hw).
    destruct sleeps; simpl in *; lia.
  - destruct (workers s !! w) as [[]|] eqn:Hw; try done.
    injection Hstep as <-. unfold weight, set_worker. simpl.
    pose proof (worker_weight_insert _ _ _ WRecv Hw). simpl in *. lia.
  - destruct (pc s) eqn:Hpc; try done.
    destruct (all_exited (workers s)); [|done].
    destruct (results_closed s) eqn:Hcl; [done|].
    injection Hstep as <-. unfold weight. simpl. rewrite Hpc, Hcl. lia.
  - destruct (pc s) eqn:Hpc; try done.
    destruct (results s) as [|r rest] eqn:Hres; [done|].
    destruct (process_result (tally s) r) as [tally' line].
    injection Hstep as <-. unfold weight. simpl. rewrite Hpc, Hres. simpl. lia.
  - destruct (pc s) eqn:Hpc; try done.
    destruct (results s) as [|r rest] eqn:Hres; [|done].
    destruct (_ && _); [|done].
    injection Hstep as <-. unfold weight. simpl. rewrite Hpc, Hres. simpl. lia.
Qed.

(** No schedule runs longer than the weight of the state it starts in. *)
Lemma exec_weight sched s s' :
  exec sched s = Some s' → (length sched + weight s' ≤ weight s)%nat.
Proof.
  revert s. induction sched as [|ev sched IH]; intros s Hexec; simpl in Hexec.
  - injection Hexec as <-. simpl. lia.
  - destruct (step ev s) as [s1|] eqn:Hstep; [|done].
    apply step_weight in Hstep. apply IH in Hexec. simpl. lia.
Qed.

Lemma not_all_exited ws :
  all_exited ws = false → ∃ w x, ws !! w = Some x ∧ x ≠ WExit.
Proof.
  induction ws as [|x ws IH]; [done|].
  destruct (decide (x = WExit)) as [->|Hx].
  - simpl. intros Hall. destruct (IH Hall) as (w & x & Hw & Hx).
    by exists (S w), x.
  - intros _. by exists 0%nat, x.
Qed.

(** No deadlock: until [main] has returned some action can run. *)
Lemma progress ds s :
  Inv ds s → pc s ≠ MDone → ∃ ev s', step ev s = Some s'.
Proof.
  intros Hinv Hpc.
  destruct (inv_tally _ _ Hinv) as (rs & _ & Hperm & _).
  apply Permutation_length in Hperm. unfold pending in Hperm.
  rewrite !length_app in Hperm.
  destruct (pc s) as [[|d rest]| |] eqn:Hpcs; [| | |done].
  - exists EvSend. simpl. rewrite Hpcs. by eexists.
  - exists EvSend. simpl. rewrite Hpcs, (inv_domains _ _ Hinv).
    simpl in Hperm.
    destruct (Nat.ltb_spec (length (jobs s)) (length ds)); [by eexists|lia].
  - destruct (results s) as [|r rest] eqn:Hres.
    2:{ exists EvCollect. simpl. rewrite Hpcs, Hres.
        destruct (process_result (tally s) r). by eexists. }
    destruct (all_exited (workers s)) eqn:Hall.
    + destruct (results_closed s) eqn:Hcl.
      * exists (EvSummary (map_to_list (statusCodes (tally s)))
                          (map_to_list (categoryStats (tally s)))).
        simpl. rewrite Hpcs, Hres, Hcl.
        rewrite !bool_decide_eq_true_2 by done. by eexists.
      * exists EvCloseResults. simpl. rewrite Hpcs, Hall, Hcl. by eexists.
    + destruct (not_all_exited _ Hall) as (w & x & Hw & Hx).
      destruct x as [|d| |]; [| | |done].
      * exists (EvRecvJob w). simpl. rewrite Hw.
        destruct (jobs s) as [|d rest]; [|by eexists].
        destruct (jobs_closed s) eqn:Hjc; [by eexists|].
        destruct (inv_open _ _ Hinv Hjc) as [rest Hrest]. congruence.
      * destruct (step_EvProbe s w d [] 0 Hw (Inv_probing_room _ _ _ _ Hinv Hw))
          as (s' & Hstep & _).
        by exists (EvProbe w [] 0), s'.
      * exists (EvWake w). simpl. rewrite Hw. by eexists.
Qed.

(** From every state of a run some schedule leads to [main] returning. *)
Lemma can_complete ds s :
  Inv ds s → ∃ sched s', exec sched s = Some s' ∧ pc s' = MDone.
Proof.
  remember (weight s) as n eqn:Hn. revert s Hn.
  induction n as [n IH] using lt_wf_ind. intros s -> Hinv.
  destruct (decide (pc s = MDone)) as [Hdone|Hrun].
  - by exists [], s.
  - destruct (progress _ _ Hinv Hrun) as (ev & s1 & Hstep).
    destruct (IH (weight s1) (step_weight _ _ _ Hstep) s1 eq_refl
                 (step_Inv _ _ _ _ Hinv Hstep)) as (sched & s' & Hexec & Hpc).
    exists (ev :: sched), s'. simpl. by rewrite Hstep.
Qed.

(** A run of [main] that starts the workers can always complete, and takes
    at most 1014 actions. *)
Lemma main_can_complete fs s0 :
  main_start fs = Started s0 →
  (∃ sched s, main fs sched = ExitOk s)
  ∧ ∀ sched s, exec sched s0 = Some s → (length sched ≤ 1014)%nat.
Proof.
  intros Hstart. unfold main. rewrite Hstart.
  assert (∃ loaded, s0 = init_state (take 200 (array loaded))
                    ∧ (200 ≤ cap loaded)%nat) as (loaded & -> & Hcap).
  { revert Hstart. unfold main_start, reslice_to.
    destruct (ReadDomainsFromCSV fs csvFile) as [loaded [e|]]; [done|].
    destruct (Nat.leb_spec 200 (cap loaded)); [|done].
    intros [= <-]. by exists loaded. }
  split.
  - destruct (can_complete _ _ (init_state_Inv (take 200 (array loaded))))
      as (sched & s & Hexec & Hpc).
    exists sched, s. by rewrite Hexec, Hpc.
  - intros sched s Hexec. apply exec_weight in Hexec.
    revert Hexec. unfold weight at 2. simpl. rewrite length_take.
    unfold cap in Hcap. lia.
Qed.

(** The statistics of a completed run are those of 200 results, one for
    each job. *)
Lemma completed_run_counts_every_job_aux fs sched s :
  main fs sched = ExitOk s →
  ∃ rs, tally s = fst (process_results Tally_init rs)
        ∧ length rs = length (domains s)
        ∧ length rs = 200%nat
        ∧ map Result_Domain rs ≡ₚ domains s.
Proof.
  intros Hmain.
  destruct (main_running fs sched s (or_introl Hmain))
    as (loaded & Hload & Hcap & Hexec & Hinv).
  destruct (Inv_done_counted _ _ Hinv (main_ExitOk_done _ _ _ Hmain))
    as (rs & Htally & Hperm).
  assert (Hlen : length (take 200 (array loaded)) = 200%nat).
  { rewrite length_take. unfold cap in Hcap. lia. }
  exists rs. rewrite (inv_domains _ _ Hinv). split; [done|].
  apply Permutation_length in Hperm as Hl. rewrite length_map in Hl.
  repeat split; try done; lia.
Qed.

(** * The claims *)

(** C1. For every run that completes after at least 200
    domains were loaded, the successful count plus the failed count equals
    the number of domains processed, and that number is 200, the length of
    the re-sliced list [domains[:200]], not the number of domains loaded:
    the jobs are the first 200 domains loaded, and every enqueued job yields
    exactly one counted result (no drops, no duplicates). *)
Theorem completed_run_counts_every_job fs sched s loaded :
  ReadDomainsFromCSV fs csvFile = (loaded, None) →
  (200 ≤ len loaded)%nat →
  main fs sched = ExitOk s →
  domains s = take 200 (elems loaded)
  ∧ length (domains s) = 200%nat
  ∧ ∃ rs, tally s = fst (process_results Tally_init rs)
          ∧ map Result_Domain rs ≡ₚ take 200 (elems loaded)
          ∧ length rs = 200%nat
          ∧ successful (tally s) + failed (tally s) = 200.
Proof.
  intros Hload Hge Hmain.
  destruct (main_running fs sched s (or_introl Hmain))
    as (loaded' & Hload' & Hcap & Hexec & Hinv).
  assert (loaded' = loaded) as -> by congruence.
  destruct (completed_run_counts_every_job_aux fs sched s Hmain)
    as (rs & Htally & Hlen & Hrs & Hperm).
  assert (Hdom : domains s = take 200 (elems loaded)).
  { rewrite (inv_domains _ _ Hinv). unfold elems. rewrite take_take.
    f_equal. lia. }
  split; [done|]. split; [lia|].
  exists rs. split; [done|]. split; [by rewrite <- Hdom|]. split; [done|].
  rewrite Htally.
  rewrite (te_total _ _ (process_results_exact rs ltac:(lia))). lia.
Qed.

(** C5. For every run that completes, the per-category Total fields sum to
    the overall total (the number of domains checked), the per-category
    Success fields to the successful count and the per-category Failed
    fields to the failed count. *)
Theorem completed_run_category_sums fs sched s :
  main fs sched = ExitOk s →
  sum_stats Total (categoryStats (tally s)) = Z.of_nat (length (domains s))
  ∧ sum_stats Success (categoryStats (tally s)) = successful (tally s)
  ∧ sum_stats Failed (categoryStats (tally s)) = failed (tally s).
Proof.
  intros Hmain.
  destruct (completed_run_counts_every_job_aux fs sched s Hmain)
    as (rs & Htally & Hlen & Hrs & _).
  pose proof (process_results_exact rs ltac:(lia)) as Hexact.
  rewrite Htally, <- Hlen.
  split; [apply Hexact|]. split; apply Hexact.
Qed.

(** C10. In every state a run of [main] reaches, so after each result the
    aggregator has processed, every category entry has
    Total = Success + Failed, as integers and in Go's arithmetic. *)
Theorem category_total_is_success_plus_failed fs sched s category stats :
  main fs sched = ExitOk s ∨ main fs sched = Unfinished s →
  categoryStats (tally s) !! category = Some stats →
  Total stats = Success stats + Failed stats
  ∧ Total stats = int_add (Success stats) (Failed stats).
Proof.
  intros Hmain Hlook.
  destruct (main_running fs sched s Hmain) as (loaded & Hload & Hcap & Hexec & Hinv).
  destruct (Inv_counted_le _ _ Hinv) as (rs & Htally & Hle).
  rewrite length_take in Hle. rewrite Htally in Hlook.
  split.
  - pose proof (process_results_exact rs ltac:(lia)) as Hexact.
    by destruct (te_cat _ _ Hexact _ _ Hlook) as (_ & _ & ?).
  - by apply (process_results_balanced rs category).
Qed.

(** C4. On a file that holds only a header row the loader
    returns no domain and no error, and [main] then panics at
    [domains[:200]] (the nil slice has capacity 0): nothing is printed, no
    summary either. *)
Theorem header_only_file_panics fs header sched :
  fs csvFile = csv_file header [] →
  ReadDomainsFromCSV fs csvFile = (nil_slice, None)
  ∧ main fs sched = ExitPanic 200 0
  ∧ Outcome_trace (main fs sched) = [].
Proof.
  intros Hfs.
  assert (Hload : ReadDomainsFromCSV fs csvFile = (nil_slice, None)).
  { unfold ReadDomainsFromCSV. by rewrite Hfs. }
  assert (Hmain : main fs sched = ExitPanic 200 0).
  { unfold main. by rewrite (main_start_loaded _ _ Hload). }
  by rewrite Hmain.
Qed.

(** C9. When the loader returns without error, [main] panics at
    [domains[:200]], after loading and before any probing or output,
    exactly when the capacity of the returned slice is below 200; that is
    so whenever no domain was loaded. A slice of fewer than 200 domains
    whose capacity reaches 200 is re-sliced without panic: the workers are
    started on the first 200 entries of its backing array. *)
Theorem reslice_panics_below_capacity fs loaded sched :
  ReadDomainsFromCSV fs csvFile = (loaded, None) →
  ((cap loaded < 200)%nat →
     main fs sched = ExitPanic 200 (cap loaded)
     ∧ Outcome_trace (main fs sched) = [])
  ∧ ((200 ≤ cap loaded)%nat →
     main_start fs = Started (init_state (take 200 (array loaded)))
     ∧ ∀ high capacity, main fs sched ≠ ExitPanic high capacity)
  ∧ (len loaded = 0%nat → (cap loaded < 200)%nat).
Proof.
  intros Hload. pose proof (main_start_loaded _ _ Hload) as Hstart.
  split; [|split].
  - intros Hcap. destruct (Nat.leb_spec 200 (cap loaded)); [lia|].
    unfold main. by rewrite Hstart.
  - intros Hcap. destruct (Nat.leb_spec 200 (cap loaded)); [|lia].
    split; [done|]. intros high capacity. unfold main. rewrite Hstart.
    destruct (exec sched _) as [s|]; [|done]. by destruct (pc s).
  - intros Hlen. destruct (ReadDomainsFromCSV_shape fs csvFile) as [_ Hfresh].
    rewrite Hload in Hfresh. simpl in Hfresh. rewrite (Hfresh Hlen). lia.
Qed.



(** C8. For every Domain a worker has received, its iteration sends exactly
    one Result, for that domain, on each of the three branches: the request
    cannot be built (error set, status code left 0), the request fails
    (error set, status code left 0), or a response arrives (no error, the
    status code of the response). In every state of a run the action of
    the worker is enabled (the send does not block) and appends exactly that
    Result to [results]. *)
Theorem worker_emits_one_result ds s w domain script elapsed :
  Inv ds s →
  workers s !! w = Some (WProbing domain) →
  ∃ r s',
    fst (fst (worker_body domain script elapsed)) = [r]
    ∧ step (EvProbe w script elapsed) s = Some s'
    ∧ results s' = results s ++ [r]
    ∧ Result_Domain r = domain
    ∧ ((∃ e, NewRequest_err ("https://" +:+ Name domain) = Some e
             ∧ Error r = Some e ∧ StatusCode r = 0)
       ∨ (∃ e, NewRequest_err ("https://" +:+ Name domain) = None
               ∧ snd (fst (client_Do worker_client
                                     ("https://" +:+ Name domain) [] script))
                 = Some e
               ∧ Error r = Some e ∧ StatusCode r = 0)
       ∨ (∃ resp requested,
             NewRequest_err ("https://" +:+ Name domain) = None
             ∧ client_Do worker_client ("https://" +:+ Name domain) [] script
               = (Some resp, None, requested)
             ∧ Error r = None ∧ StatusCode r = Response_StatusCode resp)).
Proof.
  intros Hinv Hw.
  destruct (step_EvProbe s w domain script elapsed Hw
              (Inv_probing_room _ _ _ _ Hinv Hw))
    as (s' & Hstep & Hres & _).
  destruct (worker_body_one domain script elapsed) as (r & Hone & Hdom).
  exists r, s'. rewrite Hres, Hone. repeat (split; [done|]).
  revert Hone. unfold worker_body.
  destruct (NewRequest_err _) as [e|] eqn:Hreq.
  { intros [= <-]. left. by exists e. }
  rewrite client_Do_worker_client.
  destruct script as [|[err|resp] script']; simpl; intros [= <-]; right.
  - left. by eexists.
  - left. by eexists.
  - right. by eexists _, _.
Qed.

(** * Further properties of the code *)

(** ** The loader, from its result *)

(** A record read without error is a well quoted one, returned as it is. *)
Lemma readRecord_None fpr rec record fpr' :
  readRecord fpr rec = (record, None, fpr') → rec = RawFields record.
Proof.
  unfold readRecord. destruct rec as [fields|cause].
  - repeat case_match; by intros [= <- <-].
  - rewrite bool_decide_eq_false_2, andb_false_r by done.
    destruct (0 <? fpr); [|destruct (fpr =? 0)]; done.
Qed.

(** Under a positive expectation, a record read without error has the
    expected number of fields. *)
Lemma readRecord_None_count fpr rec record fpr' :
  0 < fpr → readRecord fpr rec = (record, None, fpr') →
  Z.of_nat (length record) = fpr ∧ fpr' = fpr.
Proof.
  intros Hpos. unfold readRecord. destruct rec as [fields|cause].
  - destruct (Z.ltb_spec 0 fpr); [|lia].
    destruct (Z.eqb_spec (Z.of_nat (length fields)) fpr); simpl; [|done].
    by intros [= <- <-].
  - rewrite bool_decide_eq_false_2, andb_false_r by done.
    destruct (Z.ltb_spec 0 fpr); [|lia]. done.
Qed.

Lemma read_loop_success fpr rest s ds :
  slice_ok s →
  read_loop fpr rest s = (ds, None) →
  ∃ rows, rest = map RawFields rows
          ∧ slice_ok ds
          ∧ elems ds = elems s ++ map row_domain (filter (λ r, 2 ≤ length r)%nat rows).
Proof.
  revert fpr s. induction rest as [|rec rest IH]; intros fpr s Hok; cbn [read_loop].
  - intros [= <-]. exists []. by rewrite app_nil_r.
  - destruct (readRecord fpr rec) as [[record [e|]] fpr'] eqn:Hrec; [done|].
    apply readRecord_None in Hrec as ->.
    fold (row_domain record). intros Hloop.
    destruct (Nat.leb_spec 2 (length record)) as [Hge|Hlt].
    + destruct (IH _ _ (append_ok Domain_zero s (row_domain record) Hok) Hloop)
        as (rows & -> & Hok' & Hel).
      exists (record :: rows). split; [done|]. split; [done|].
      rewrite Hel, elems_append by done.
      rewrite filter_cons, decide_True by done. by rewrite <- app_assoc.
    + destruct (IH _ _ Hok Hloop) as (rows & -> & Hok' & Hel).
      exists (record :: rows). split; [done|]. split; [done|].
      by rewrite filter_cons, decide_False by lia.
Qed.

Lemma read_loop_success_count fpr rest s ds :
  0 < fpr →
  read_loop fpr rest s = (ds, None) →
  ∃ rows, rest = map RawFields rows
          ∧ Forall (λ r, Z.of_nat (length r) = fpr) rows.
Proof.
  intros Hpos. revert s. induction rest as [|rec rest IH]; intros s; cbn [read_loop].
  - intros _. by exists [].
  - destruct (readRecord fpr rec) as [[record [e|]] fpr'] eqn:Hrec; [done|].
    destruct (readRecord_None_count _ _ _ _ Hpos Hrec) as [Hlen ->].
    apply readRecord_None in Hrec as ->.
    intros Hloop. destruct (IH _ Hloop) as (rows & -> & Hall).
    exists (record :: rows). split; [done|]. by constructor.
Qed.

(** X1. Whenever [ReadDomainsFromCSV] returns without error, the file
    opened and held a header and well quoted data rows, and the slice
    returned holds exactly the rows of at least two fields, in file order,
    column 0 as name and column 1 as category; its length does not exceed
    its capacity. *)
Theorem ReadDomainsFromCSV_success fs filename ds :
  ReadDomainsFromCSV fs filename = (ds, None) →
  ∃ header rows,
    fs filename = csv_file header rows
    ∧ elems ds = map row_domain (filter (λ r, 2 ≤ length r)%nat rows)
    ∧ (len ds ≤ length rows)%nat
    ∧ (len ds ≤ cap ds)%nat.
Proof.
  unfold ReadDomainsFromCSV.
  destruct (fs filename) as [err|[|rec rest]]; [done|done|].
  unfold Reader_Read, csv_NewReader. cbn [input FieldsPerRecord].
  destruct (readRecord 0 rec) as [[header [e|]] fpr] eqn:Hrec; [done|].
  apply readRecord_None in Hrec as ->. cbn [input FieldsPerRecord].
  intros Hloop.
  destruct (read_loop_success _ _ _ _ nil_slice_ok Hloop) as (rows & -> & Hok & Hel).
  exists header, rows. split; [done|]. split; [done|]. split; [|done].
  rewrite <- (elems_length ds Hok), Hel. simpl.
  rewrite length_map. apply length_filter.
Qed.

(** X2. On a file with a non-empty header, [ReadDomainsFromCSV] returns
    without error exactly when every later record is well quoted and has as
    many fields as the header. *)
Theorem ReadDomainsFromCSV_succeeds_iff fs filename header rest :
  fs filename = OpenOk (RawFields header :: rest) →
  header ≠ [] →
  snd (ReadDomainsFromCSV fs filename) = None
  ↔ ∃ rows, rest = map RawFields rows
            ∧ Forall (λ r, length r = length header) rows.
Proof.
  intros Hfs Hne. split.
  - rewrite (ReadDomainsFromCSV_header _ _ _ _ Hfs).
    destruct (read_loop _ rest nil_slice) as [ds err] eqn:Hloop.
    simpl. intros ->.
    assert (Hpos : 0 < Z.of_nat (length header))
      by (destruct header; [done|simpl; lia]).
    destruct (read_loop_success_count _ _ _ _ Hpos Hloop) as (rows & -> & Hall).
    exists rows. split; [done|].
    eapply Forall_impl; [exact Hall|]. simpl. intros r Hr. lia.
  - intros (rows & -> & Hall).
    destruct (ReadDomainsFromCSV_consistent fs filename header rows Hfs Hall)
      as (ds & -> & _). done.
Qed.

Lemma read_loop_error fpr rest s e :
  snd (read_loop fpr rest s) = Some e →
  fst (read_loop fpr rest s) = nil_slice
  ∧ ∃ cause, e = fmt_Errorf "error reading record: %v" cause.
Proof.
  revert fpr s. induction rest as [|rec rest IH]; intros fpr s; cbn [read_loop].
  - done.
  - destruct (readRecord fpr rec) as [[record [e1|]] fpr'].
    + simpl. intros [= <-]. split; [done|]. by exists e1.
    + apply IH.
Qed.

(** X3. Whenever [ReadDomainsFromCSV] returns an error it returns the nil
    slice with it, never a part of the file, and the error is one of the
    three wrapped errors: opening the file, reading the header, reading a
    record. *)
Theorem ReadDomainsFromCSV_error_nil fs filename e :
  snd (ReadDomainsFromCSV fs filename) = Some e →
  fst (ReadDomainsFromCSV fs filename) = nil_slice
  ∧ ∃ cause, e = fmt_Errorf "error opening file: %v" cause
             ∨ e = fmt_Errorf "error reading header: %v" cause
             ∨ e = fmt_Errorf "error reading record: %v" cause.
Proof.
  unfold ReadDomainsFromCSV.
  destruct (fs filename) as [err|file].
  { simpl. intros [= <-]. split; [done|]. exists err. by left. }
  destruct (Reader_Read (csv_NewReader file)) as [[dst [e0|]] reader].
  { simpl. intros [= <-]. split; [done|]. exists e0. right. by left. }
  intros Herr. destruct (read_loop_error _ _ _ _ Herr) as [Hnil [cause ->]].
  split; [done|]. exists cause. right. by right.
Qed.

(** X4. [append] keeps the length within the capacity, so when at least 200
    domains are loaded the re-slice [domains[:200]] cannot panic: the
    workers are started on the first 200 loaded domains, whatever the
    schedule. *)
Theorem long_load_never_panics fs loaded sched :
  ReadDomainsFromCSV fs csvFile = (loaded, None) →
  (200 ≤ len loaded)%nat →
  main_start fs = Started (init_state (take 200 (elems loaded)))
  ∧ ∀ high capacity, main fs sched ≠ ExitPanic high capacity.
Proof.
  intros Hload Hlen.
  destruct (ReadDomainsFromCSV_shape fs csvFile) as [Hok _].
  rewrite Hload in Hok. unfold slice_ok in Hok. simpl in Hok.
  pose proof (main_start_loaded _ _ Hload) as Hstart.
  destruct (Nat.leb_spec 200 (cap loaded)); [|lia].
  assert (Htake : take 200 (elems loaded) = take 200 (array loaded)).
  { unfold elems. rewrite take_take. f_equal. lia. }
  rewrite Htake. split; [done|].
  intros high capacity. unfold main. rewrite Hstart.
  destruct (exec sched _) as [s|]; [|done]. by destruct (pc s).
Qed.

(** ** The statistics are counts *)

Lemma count_nil {A} (P : A → Prop) `{∀ x, Decision (P x)} : count P [] = 0.
Proof. done. Qed.

Lemma count_snoc {A} (P : A → Prop) `{∀ x, Decision (P x)} l x :
  count P (l ++ [x]) = count P l + (if decide (P x) then 1 else 0).
Proof.
  unfold count. rewrite filter_app, length_app, filter_cons, filter_nil.
  destruct (decide (P x)); simpl; lia.
Qed.

Lemma count_bounds {A} (P : A → Prop) `{∀ x, Decision (P x)} l :
  0 ≤ count P l ≤ Z.of_nat (length l).
Proof. unfold count. pose proof (length_filter P l). lia. Qed.

Lemma count_and_le {A} (P Q : A → Prop)
    `{∀ x, Decision (P x)} `{∀ x, Decision (Q x)} l :
  count (λ x, P x ∧ Q x) l ≤ count P l.
Proof.
  unfold count. induction l as [|x l IH]; [done|].
  rewrite !filter_cons.
  destruct (decide (P x ∧ Q x)) as [[HP HQ]|Hno].
  - rewrite decide_True by done. simpl. lia.
  - destruct (decide (P x)); simpl; lia.
Qed.

Lemma Tally_init_counts : tally_counts [] Tally_init.
Proof. split; try done; intros; simpl; by rewrite lookup_empty. Qed.

(** Processing one more result keeps the statistics equal to the counts, as
    long as no counter can overflow. *)
Lemma process_result_counts rs t r :
  tally_counts rs t → Z.of_nat (length rs) + 1 < 2 ^ 63 →
  tally_counts (rs ++ [r]) (fst (process_result t r)).
Proof.
  intros [Hs Hf Hcat Hcode] Hlen.
  set (cat := Category (Result_Domain r)).
  pose proof (count_bounds (λ r, Category (Result_Domain r) = cat) rs) as Bn.
  pose proof (count_bounds (λ r, Category (Result_Domain r) = cat ∧ Error r = None) rs) as Ba.
  pose proof (count_bounds (λ r, Category (Result_Domain r) = cat ∧ Error r ≠ None) rs) as Bb.
  pose proof (count_and_le (λ r, Category (Result_Domain r) = cat)
                (λ r, Error r = None) rs) as La.
  pose proof (count_and_le (λ r, Category (Result_Domain r) = cat)
                (λ r, Error r ≠ None) rs) as Lb.
  pose proof (count_bounds (λ r, Error r = None) rs) as Bs.
  pose proof (count_bounds (λ r, Error r ≠ None) rs) as Bf.
  cbv beta in La, Lb.
  assert (Hst0 : default (mkStats 0 0 0) (categoryStats t !! cat)
                 = mkStats (count (λ r, Category (Result_Domain r) = cat) rs)
                     (count (λ r, Category (Result_Domain r) = cat ∧ Error r = None) rs)
                     (count (λ r, Category (Result_Domain r) = cat ∧ Error r ≠ None) rs)).
  { rewrite Hcat. destruct (decide (count _ rs = 0)) as [H0|H0]; [|done].
    simpl. f_equal; lia. }
  unfold process_result. fold cat. rewrite Hst0. cbn [Total Success Failed].
  rewrite (int_incr_small (count (λ r, Category (Result_Domain r) = cat) rs)) by lia.
  assert (Hother : ∀ c, cat ≠ c →
            ∀ Q : Result → Prop, ∀ HQ : (∀ x, Decision (Q x)),
            count (λ r, Category (Result_Domain r) = c ∧ Q r) (rs ++ [r])
            = count (λ r, Category (Result_Domain r) = c ∧ Q r) rs).
  { intros c Hne Q HQ. rewrite count_snoc.
    rewrite decide_False; [lia|]. intros [Hc _]. by apply Hne. }
  assert (Hother0 : ∀ c, cat ≠ c →
            count (λ r, Category (Result_Domain r) = c) (rs ++ [r])
            = count (λ r, Category (Result_Domain r) = c) rs).
  { intros c Hne. rewrite count_snoc. rewrite decide_False; [lia|done]. }
  destruct (Error r) as [err|] eqn:Herr; cbn [fst].
  - rewrite (int_incr_small (count (λ r, _ ∧ Error r ≠ None) rs)) by lia.
    rewrite (int_incr_small (failed t)) by lia.
    split; cbn [successful failed categoryStats statusCodes].
    + rewrite Hs, count_snoc, (decide_False (P := Error r = None)) by congruence.
      lia.
    + rewrite Hf, count_snoc, (decide_True (P := Error r ≠ None)) by congruence.
      lia.
    + intros c. destruct (decide (cat = c)) as [<-|Hne].
      * rewrite lookup_insert_eq, !count_snoc.
        rewrite (decide_True (P := cat = cat)) by done.
        rewrite (decide_False (P := cat = cat ∧ Error r = None))
          by (intros [_ ?]; congruence).
        rewrite (decide_True (P := cat = cat ∧ Error r ≠ None))
          by (split; congruence).
        rewrite decide_False by lia. do 2 f_equal; lia.
      * rewrite lookup_insert_ne by done.
        by rewrite Hcat, Hother0, !Hother.
    + intros code. rewrite Hcode, count_snoc.
      rewrite (decide_False (P := Error r = None ∧ StatusCode r = code))
        by (intros [? _]; congruence).
      by rewrite Z.add_0_r.
  - rewrite (int_incr_small (count (λ r, _ ∧ Error r = None) rs)) by lia.
    rewrite (int_incr_small (successful t)) by lia.
    split; cbn [successful failed categoryStats statusCodes].
    + rewrite Hs, count_snoc, (decide_True (P := Error r = None)) by done. lia.
    + rewrite Hf, count_snoc, (decide_False (P := Error r ≠ None)) by (intros ?; done).
      lia.
    + intros c. destruct (decide (cat = c)) as [<-|Hne].
      * rewrite lookup_insert_eq, !count_snoc.
        rewrite (decide_True (P := cat = cat)) by done.
        rewrite (decide_True (P := cat = cat ∧ Error r = None)) by done.
        rewrite (decide_False (P := cat = cat ∧ Error r ≠ None))
          by (intros [_ ?]; congruence).
        rewrite decide_False by lia. do 2 f_equal; lia.
      * rewrite lookup_insert_ne by done.
        by rewrite Hcat, Hother0, !Hother.
    + intros code.
      pose proof (count_bounds (λ r, Error r = None ∧ StatusCode r = code) rs) as Bk.
      pose proof (count_and_le (λ r, Error r = None)
                    (λ r, StatusCode r = code) rs) as Lk.
      cbv beta in Lk.
      destruct (decide (StatusCode r = code)) as [<-|Hne].
      * rewrite lookup_insert_eq, count_snoc.
        rewrite (decide_True (P := Error r = None ∧ StatusCode r = StatusCode r))
          by done.
        rewrite Hcode.
        destruct (decide (count _ rs = 0)) as [H0|H0]; simpl.
        -- rewrite H0. rewrite decide_False by lia. done.
        -- rewrite int_incr_small by lia. rewrite decide_False by lia. done.
      * rewrite lookup_insert_ne by done.
        rewrite Hcode, count_snoc.
        rewrite (decide_False (P := Error r = None ∧ StatusCode r = code))
          by (intros [_ ?]; done).
        by rewrite Z.add_0_r.
Qed.

Lemma process_results_counts rs :
  Z.of_nat (length rs) < 2 ^ 63 →
  tally_counts rs (fst (process_results Tally_init rs)).
Proof.
  induction rs as [|r rs IH] using rev_ind; intros Hlen.
  - apply Tally_init_counts.
  - rewrite length_app in Hlen. simpl in Hlen.
    rewrite process_results_snoc. cbn [fst].
    apply process_result_counts; [apply IH|]; lia.
Qed.

(** X5. As long as fewer than 2^63 results are processed, the statistics
    the aggregator keeps are counts of the results: the successful and
    failed counters, for each category the number of its results and of
    those without and with an error, and for each status code the number of
    results without error that carry it. A category or status code has an
    entry exactly when such a result was processed. *)
Theorem statistics_are_counts rs c code :
  Z.of_nat (length rs) < 2 ^ 63 →
  let t := fst (process_results Tally_init rs) in
  successful t = count (λ r, Error r = None) rs
  ∧ failed t = count (λ r, Error r ≠ None) rs
  ∧ default (mkStats 0 0 0) (categoryStats t !! c)
    = mkStats (count (λ r, Category (Result_Domain r) = c) rs)
              (count (λ r, Category (Result_Domain r) = c ∧ Error r = None) rs)
              (count (λ r, Category (Result_Domain r) = c ∧ Error r ≠ None) rs)
  ∧ (categoryStats t !! c = None
     ↔ count (λ r, Category (Result_Domain r) = c) rs = 0)
  ∧ default 0 (statusCodes t !! code)
    = count (λ r, Error r = None ∧ StatusCode r = code) rs
  ∧ (statusCodes t !! code = None
     ↔ count (λ r, Error r = None ∧ StatusCode r = code) rs = 0).
Proof.
  intros Hlen t. destruct (process_results_counts rs Hlen) as [Hs Hf Hcat Hcode].
  fold t in Hs, Hf, Hcat, Hcode.
  pose proof (count_and_le (λ r, Category (Result_Domain r) = c)
                (λ r, Error r = None) rs) as La.
  pose proof (count_and_le (λ r, Category (Result_Domain r) = c)
                (λ r, Error r ≠ None) rs) as Lb.
  pose proof (count_bounds (λ r, Category (Result_Domain r) = c ∧ Error r = None) rs).
  pose proof (count_bounds (λ r, Category (Result_Domain r) = c ∧ Error r ≠ None) rs).
  cbv beta in La, Lb.
  split; [done|]. split; [done|].
  rewrite Hcat, Hcode.
  destruct (decide (count (λ r, Category (Result_Domain r) = c) rs = 0)) as [Hc0|Hc0];
    destruct (decide (count (λ r, Error r = None ∧ StatusCode r = code) rs = 0))
      as [Hs0|Hs0]; simpl.
  - repeat split; try done. f_equal; lia.
  - repeat split; try done. f_equal; lia.
  - repeat split; done.
  - repeat split; done.
Qed.

Lemma count_fmap {A B} (f : A → B) (P : B → Prop) `{∀ x, Decision (P x)} l :
  count (λ x, P (f x)) l = count P (map f l).
Proof.
  unfold count. f_equal.
  induction l as [|x l IH]; [done|].
  simpl. rewrite !filter_cons. destruct (decide (P (f x))); simpl; by rewrite IH.
Qed.

Lemma count_Permutation {A} (P : A → Prop) `{∀ x, Decision (P x)} l1 l2 :
  l1 ≡ₚ l2 → count P l1 = count P l2.
Proof. intros Hperm. unfold count. by rewrite Hperm. Qed.

Lemma count_zero_iff {A} (P : A → Prop) `{∀ x, Decision (P x)} l :
  count P l = 0 ↔ ∀ x, x ∈ l → ¬ P x.
Proof.
  unfold count. induction l as [|x l IH].
  - split; [|done]. intros _ y Hy. by apply elem_of_nil in Hy.
  - rewrite filter_cons. destruct (decide (P x)) as [HP|HP]; simpl.
    + split; [lia|]. intros Hall. destruct (Hall x); [left|done].
    + rewrite IH. split.
      * intros Hall y Hy. apply elem_of_cons in Hy as [->|Hy]; auto.
      * intros Hall y Hy. apply Hall. by right.
Qed.

Lemma count_nonzero {A} (P : A → Prop) `{∀ x, Decision (P x)} l :
  count P l ≠ 0 → ∃ x, x ∈ l ∧ P x.
Proof.
  unfold count. induction l as [|x l IH]; [done|].
  rewrite filter_cons. destruct (decide (P x)) as [HP|HP].
  - intros _. exists x. split; [left|done].
  - intros Hn. destruct (IH Hn) as (y & Hy & HPy). exists y. split; [by right|done].
Qed.

(** X6. When a run completes, the entry of a category holds as its Total
    the number of processed domains (the re-sliced list) that carry the
    category, and the category table has an entry for exactly the
    categories that occur among them. *)
Theorem completed_run_category_totals fs sched s c :
  main fs sched = ExitOk s →
  Total (default (mkStats 0 0 0) (categoryStats (tally s) !! c))
  = count (λ d, Category d = c) (domains s)
  ∧ (is_Some (categoryStats (tally s) !! c)
     ↔ ∃ d, d ∈ domains s ∧ Category d = c).
Proof.
  intros Hmain.
  destruct (completed_run_counts_every_job_aux fs sched s Hmain)
    as (rs & Htally & Hlen & Hrs & Hperm).
  destruct (process_results_counts rs ltac:(lia)) as [_ _ Hcat _].
  rewrite <- Htally in Hcat.
  assert (Hc : count (λ r, Category (Result_Domain r) = c) rs
               = count (λ d, Category d = c) (domains s)).
  { pose proof (count_fmap Result_Domain (λ d, Category d = c) rs) as Hf.
    etrans; [exact Hf|]. by apply count_Permutation. }
  rewrite Hcat, Hc.
  destruct (decide (count (λ d, Category d = c) (domains s) = 0)) as [Hz|Hz]; simpl.
  - split; [done|]. split; [by intros [? ?]|].
    intros (d & Hd & Hcd). rewrite count_zero_iff in Hz. by destruct (Hz d Hd).
  - split; [done|]. split; [|by eexists]. intros _.
    by apply (count_nonzero (λ d, Category d = c)).
Qed.

(** X7. When a run completes, the counts of the status-code histogram add
    up to the successful count, and no entry of the histogram is zero:
    every status code listed was received at least once, and at most as
    often as there are successes. *)
Theorem completed_run_status_histogram fs sched s :
  main fs sched = ExitOk s →
  sum_codes (statusCodes (tally s)) = successful (tally s)
  ∧ ∀ code k, statusCodes (tally s) !! code = Some k →
              0 < k ≤ successful (tally s).
Proof.
  intros Hmain.
  destruct (completed_run_counts_every_job_aux fs sched s Hmain)
    as (rs & Htally & Hlen & Hrs & Hperm).
  pose proof (process_results_exact rs ltac:(lia)) as Hexact.
  destruct (process_results_counts rs ltac:(lia)) as [_ _ _ Hcode].
  rewrite <- Htally in Hexact, Hcode.
  split; [apply Hexact|].
  intros code k Hk. split.
  - rewrite Hcode in Hk.
    destruct (decide (count (λ r, Error r = None ∧ StatusCode r = code) rs = 0))
      as [Hz|Hz]; [done|].
    injection Hk as <-.
    pose proof (count_bounds (λ r, Error r = None ∧ StatusCode r = code) rs). lia.
  - rewrite <- (te_sum_codes _ _ Hexact). unfold sum_codes.
    apply (msum_lookup_le id (statusCodes (tally s)) code k); [|done].
    intros k' x Hx. by apply (te_codes _ _ Hexact k').
Qed.

(** ** What a run prints and requests *)

Lemma requested_app a b : requested (a ++ b) = requested a ++ requested b.
Proof. apply omap_app. Qed.

Lemma printed_app a b : printed (a ++ b) = printed a ++ printed b.
Proof. apply filter_app. Qed.

Lemma requested_HttpGet urls : requested (map HttpGet urls) = urls.
Proof. induction urls as [|u urls IH]; [done|]. simpl. by rewrite IH. Qed.

Lemma printed_HttpGet urls : printed (map HttpGet urls) = [].
Proof. induction urls as [|u urls IH]; [done|]. simpl. by rewrite <- IH. Qed.

Lemma no_network_printed out : no_network out → printed out = out.
Proof.
  induction 1 as [|e out He _ IH]; [done|].
  unfold printed. rewrite filter_cons, decide_True by done.
  f_equal. apply IH.
Qed.

Lemma no_network_requested out : no_network out → requested out = [].
Proof.
  induction 1 as [|e out He _ IH]; [done|].
  simpl. rewrite IH. by destruct e.
Qed.

Lemma summary_no_network n t codes cats : no_network (summary n t codes cats).
Proof.
  unfold summary, no_network.
  repeat (apply Forall_cons; split; [done|]). simpl.
  apply Forall_app. split.
  - apply Forall_forall. intros e He. apply list_elem_of_fmap in He as ([code k] & -> & _).
    done.
  - apply Forall_cons. split; [done|].
    apply Forall_forall. intros e He. apply list_elem_of_fmap in He as ([c st] & -> & _).
    done.
Qed.

(** The line printed for a result does not depend on the statistics. *)
Lemma process_result_line t r : snd (process_result t r) = result_line r.
Proof. unfold result_line, process_result. by destruct (Error r). Qed.

Lemma result_line_no_network r : no_network [result_line r].
Proof.
  apply Forall_cons. split; [|done].
  unfold result_line, process_result. by destruct (Error r).
Qed.

(** A worker sends one request for a domain whose URL parses, and none
    otherwise. *)
Lemma worker_body_requested domain script elapsed :
  snd (worker_body domain script elapsed)
  = match request_of domain with Some u => [u] | None => [] end.
Proof.
  unfold worker_body, request_of, url_of.
  destruct (NewRequest_err _); [done|].
  rewrite client_Do_worker_client.
  by destruct script as [|[err|resp] script'].
Qed.

Lemma omap_request_cons d l :
  omap request_of (d :: l) = omap request_of [d] ++ omap request_of l.
Proof. change (d :: l) with ([d] ++ l). apply omap_app. Qed.

Lemma init_state_Hist ds : Hist ds (init_state ds) [].
Proof.
  split; try done.
  - unfold pending. simpl. by rewrite !app_nil_r.
  - simpl. by rewrite !app_nil_r.
Qed.

(** Every action of the scheduler keeps the history. *)
Lemma step_Hist ds ev s s' rs :
  Hist ds s rs → step ev s = Some s' → ∃ rs', Hist ds s' rs'.
Proof.
  intros [Hdom Htally Hperm Hreq Hprint] Hstep.
  destruct ev as [|w|w script elapsed|w| | |codes cats]; simpl in Hstep.
  - (* EvSend *)
    destruct (pc s) as [[|d rest]| |] eqn:Hpc; try done.
    + injection Hstep as <-. destruct Hprint as [-> Hprint].
      exists []. split; simpl; try done.
      * revert Hperm. unfold pending. simpl. by rewrite Hpc.
      * rewrite requested_app. simpl. by rewrite app_nil_r.
      * rewrite printed_app, Hprint. done.
    + destruct (length (jobs s) <? length (domains s))%nat; [|done].
      injection Hstep as <-. exists rs. split; simpl; try done.
      * rewrite Hperm. unfold pending. rewrite Hpc. simpl. solve_Permutation.
      * rewrite <- Hreq. unfold unsent.
        rewrite !omap_app, (omap_request_cons d rest). solve_Permutation.
  - (* EvRecvJob *)
    destruct (workers s !! w) as [[]|] eqn:Hw; try done.
    destruct (jobs s) as [|d rest] eqn:Hjobs.
    + destruct (jobs_closed s) eqn:Hjc; [|done].
      injection Hstep as <-. unfold set_worker.
      destruct (probing_insert _ _ _ WExit Hw) as (l1 & l2 & Hp1 & Hp2).
      exists rs. split; simpl; try done.
      * rewrite Hperm. unfold pending. simpl. by rewrite Hjobs, Hp1, Hp2.
      * rewrite <- Hreq. by rewrite Hjobs, Hp1, Hp2.
    + injection Hstep as <-.
      destruct (probing_insert _ _ _ (WProbing d) Hw) as (l1 & l2 & Hp1 & Hp2).
      exists rs. split; simpl; try done.
      * rewrite Hperm. unfold pending. simpl. rewrite Hjobs, Hp1, Hp2.
        simpl. solve_Permutation.
      * rewrite <- Hreq. rewrite Hp1, Hp2. unfold held.
        rewrite !omap_app, (omap_request_cons d rest). solve_Permutation.
  - (* EvProbe *)
    destruct (workers s !! w) as [[|d| |]|] eqn:Hw; try done.
    destruct (length (results s) <? length (domains s))%nat; [|done].
    destruct (worker_body_one d script elapsed) as (r & Hone & Hr).
    pose proof (worker_body_requested d script elapsed) as Hq.
    destruct (worker_body d script elapsed) as [[sent sleeps] urls].
    simpl in Hone, Hq. subst sent urls.
    injection Hstep as <-.
    destruct (probing_insert _ _ _ (if sleeps then WSleep else WRecv) Hw)
      as (l1 & l2 & Hp1 & Hp2).
    replace (held (if sleeps then WSleep else WRecv)) with (@nil Domain) in Hp2
      by (by destruct sleeps).
    simpl in Hp1, Hp2.
    exists rs. split; simpl; try done.
    + rewrite Hperm. unfold pending. simpl. rewrite Hp1, Hp2.
      rewrite map_app. simpl. rewrite Hr. solve_Permutation.
    + rewrite <- Hreq. rewrite requested_app, requested_HttpGet, Hp1, Hp2.
      rewrite !omap_app, (omap_request_cons d l2). simpl.
      destruct (request_of d); solve_Permutation.
    + rewrite printed_app, printed_HttpGet, app_nil_r. done.
  - (* EvWake *)
    destruct (workers s !! w) as [[]|] eqn:Hw; try done.
    injection Hstep as <-. unfold set_worker.
    destruct (probing_insert _ _ _ WRecv Hw) as (l1 & l2 & Hp1 & Hp2).
    exists rs. split; simpl; try done.
    + rewrite Hperm. unfold pending. simpl. by rewrite Hp1, Hp2.
    + rewrite <- Hreq. by rewrite Hp1, Hp2.
  - (* EvCloseResults *)
    destruct (pc s) eqn:Hpc; try done.
    destruct (all_exited (workers s)) eqn:Hall; simpl in Hstep; [|done].
    destruct (negb (results_closed s)); [|done].
    injection Hstep as <-. exists rs. split; simpl; try done.
    revert Hperm. unfold pending. simpl. by rewrite Hpc.
  - (* EvCollect *)
    destruct (pc s) eqn:Hpc; try done.
    destruct (results s) as [|r rest] eqn:Hres; [done|].
    pose proof (process_result_line (tally s) r) as Hline.
    destruct (process_result (tally s) r) as [tally' line] eqn:Hpr.
    simpl in Hline. subst line.
    injection Hstep as <-. exists (rs ++ [r]). split; simpl; try done.
    + rewrite process_results_snoc. simpl. by rewrite <- Htally, Hpr.
    + rewrite Hperm. unfold pending. simpl. rewrite Hpc, Hres. simpl.
      rewrite map_app. simpl. solve_Permutation.
    + rewrite requested_app.
      rewrite (no_network_requested _ (result_line_no_network r)), app_nil_r.
      done.
    + rewrite printed_app, Hprint.
      rewrite (no_network_printed _ (result_line_no_network r)).
      by rewrite map_app.
  - (* EvSummary *)
    destruct (pc s) eqn:Hpc; try done.
    destruct (results s) as [|r rest] eqn:Hres; [|done].
    destruct (results_closed s) eqn:Hcl; [|done].
    destruct (bool_decide (codes ≡ₚ _)) eqn:Hcodes; [|done].
    destruct (bool_decide (cats ≡ₚ _)) eqn:Hcats; [|done].
    apply bool_decide_eq_true_1 in Hcodes, Hcats.
    injection Hstep as <-. exists rs. split; simpl; try done.
    + revert Hperm. unfold pending. simpl. by rewrite Hpc, Hres.
    + rewrite requested_app.
      by rewrite (no_network_requested _ (summary_no_network _ _ _ _)), app_nil_r.
    + exists codes, cats. split; [done|]. split; [done|].
      rewrite printed_app, Hprint.
      rewrite (no_network_printed _ (summary_no_network _ _ _ _)).
      by rewrite Hdom.
Qed.

Lemma exec_Hist ds sched s s' rs :
  Hist ds s rs → exec sched s = Some s' → ∃ rs', Hist ds s' rs'.
Proof.
  revert s rs. induction sched as [|ev sched IH]; intros s rs Hh Hexec;
    simpl in Hexec.
  - injection Hexec as <-. by exists rs.
  - destruct (step ev s) as [s1|] eqn:Hstep; [|done].
    destruct (step_Hist _ _ _ _ _ Hh Hstep) as (rs1 & Hh1).
    by eapply IH.
Qed.

(** X8. What a completed run prints, in order: the two start lines (200
    domains loaded, 10 workers), the banner, one line for each of the 200
    results in the order main received them (the results are those of the
    domains processed, each once), and the summary of the statistics of
    these results, the status codes and the categories listed in some order
    of the map entries. *)
Theorem completed_run_output fs sched s :
  main fs sched = ExitOk s →
  ∃ rs codes cats,
    map Result_Domain rs ≡ₚ domains s
    ∧ tally s = fst (process_results Tally_init rs)
    ∧ codes ≡ₚ map_to_list (statusCodes (tally s))
    ∧ cats ≡ₚ map_to_list (categoryStats (tally s))
    ∧ printed (trace s)
      = start_lines 200 ++ banner_lines ++ map result_line rs
        ++ summary 200 (tally s) codes cats.
Proof.
  intros Hmain.
  destruct (main_running fs sched s (or_introl Hmain))
    as (loaded & Hload & Hcap & Hexec & Hinv).
  pose proof (main_ExitOk_done _ _ _ Hmain) as Hpc.
  destruct (exec_Hist _ _ _ _ _ (init_state_Hist _) Hexec)
    as (rs & [Hdom Htally Hperm _ Hprint]).
  rewrite (Inv_done_pending _ _ Hinv Hpc) in Hperm. simpl in Hperm.
  rewrite Hpc in Hprint. destruct Hprint as (codes & cats & Hcodes & Hcats & Hprint).
  assert (Hlen : length (take 200 (array loaded)) = 200%nat).
  { rewrite length_take. unfold cap in Hcap. lia. }
  rewrite Hlen in Hprint.
  exists rs, codes, cats. rewrite Hdom. by rewrite <- Hperm.
Qed.

(** X9. The requests of a run: at every point of a run the URLs requested
    so far are among the URLs [https://<name>] of the domains processed
    whose URL parses, each domain counted once, and when the run has
    completed they are exactly these. So every domain is requested at most
    once, no request is repeated and no redirect is followed. *)
Theorem run_requests fs sched s :
  main fs sched = ExitOk s ∨ main fs sched = Unfinished s →
  requested (trace s) ⊆+ omap request_of (domains s)
  ∧ (pc s = MDone → requested (trace s) ≡ₚ omap request_of (domains s)).
Proof.
  intros Hmain.
  destruct (main_running fs sched s Hmain) as (loaded & Hload & Hcap & Hexec & Hinv).
  destruct (exec_Hist _ _ _ _ _ (init_state_Hist _) Hexec)
    as (rs & [Hdom _ _ Hreq _]).
  rewrite Hdom. split.
  - rewrite <- Hreq. by apply submseteq_inserts_r.
  - intros Hpc. pose proof (Inv_done_pending _ _ Hinv Hpc) as Hpend.
    unfold pending in Hpend.
    apply app_eq_nil in Hpend as [Hu Hpend].
    apply app_eq_nil in Hpend as [Hj Hpend].
    apply app_eq_nil in Hpend as [Hp _].
    rewrite <- Hreq, Hu, Hj, Hp. simpl. by rewrite app_nil_r.
Qed.

(** ** The channels and the goroutines *)

Lemma probing_length ws : (length (probing ws) ≤ length ws)%nat.
Proof.
  unfold probing. induction ws as [|w ws IH]; [done|].
  unfold omap in IH. destruct w; simpl; lia.
Qed.

Lemma exec_app sched1 sched2 s s1 :
  exec sched1 s = Some s1 → exec (sched1 ++ sched2) s = exec sched2 s1.
Proof.
  revert s. induction sched1 as [|ev sched1 IH]; intros s Hexec; simpl in *.
  - by injection Hexec as <-.
  - destruct (step ev s) as [s'|]; [by apply IH|done].
Qed.

(** X10. The buffers are large enough: at every point of a run the two
    channels hold at most as many elements as they have room for (the
    number of domains), at most 10 domains are under probe, and no send
    blocks: main can always send the next domain on [jobs], and a worker
    that holds a job can always send its result on [results]. *)
Theorem sends_never_block fs sched s :
  main fs sched = ExitOk s ∨ main fs sched = Unfinished s →
  (length (jobs s) ≤ length (domains s))%nat
  ∧ (length (results s) ≤ length (domains s))%nat
  ∧ (length (probing (workers s)) ≤ numWorkers)%nat
  ∧ (∀ domain rest, pc s = MSend (domain :: rest) → is_Some (step EvSend s))
  ∧ (∀ w domain script elapsed,
       workers s !! w = Some (WProbing domain) →
       is_Some (step (EvProbe w script elapsed) s)).
Proof.
  intros Hmain.
  destruct (main_running fs sched s Hmain) as (loaded & Hload & Hcap & Hexec & Hinv).
  destruct (inv_tally _ _ Hinv) as (rs & _ & Hperm & _).
  apply Permutation_length in Hperm. unfold pending in Hperm.
  rewrite !length_app, !length_map in Hperm.
  rewrite (inv_domains _ _ Hinv).
  split; [lia|]. split; [lia|]. split.
  { rewrite <- (inv_workers _ _ Hinv). apply probing_length. }
  split.
  - intros d rest Hpc. simpl. rewrite Hpc, (inv_domains _ _ Hinv).
    rewrite Hpc in Hperm. simpl in Hperm.
    destruct (Nat.ltb_spec (length (jobs s)) (length (take 200 (array loaded))));
      [done|lia].
  - intros w d script elapsed Hw.
    destruct (step_EvProbe s w d script elapsed Hw
                (Inv_probing_room _ _ _ _ Hinv Hw)) as (s' & -> & _).
    done.
Qed.

(** X11. The channels are closed in order. At every point of a run: once
    [jobs] is closed main sends nothing more on it; a worker has returned
    only when [jobs] is closed and empty; and once [results] is closed all
    workers have returned, so nothing is sent on a closed channel and no
    job is left behind. *)
Theorem channels_closed_in_order fs sched s :
  main fs sched = ExitOk s ∨ main fs sched = Unfinished s →
  (jobs_closed s = true → unsent (pc s) = [])
  ∧ (∀ w, workers s !! w = Some WExit → jobs s = [] ∧ jobs_closed s = true)
  ∧ (results_closed s = true →
     all_exited (workers s) = true ∧ probing (workers s) = []
     ∧ jobs s = [] ∧ jobs_closed s = true)
  ∧ (pc s = MDone → results s = [] ∧ results_closed s = true).
Proof.
  intros Hmain.
  destruct (main_running fs sched s Hmain) as (loaded & Hload & Hcap & Hexec & Hinv).
  destruct Hinv as [Hdom Hws Hclosed _ Hexit Hrc Hdone _].
  split; [done|]. split; [done|]. split; [|done].
  intros Hcl. specialize (Hrc Hcl).
  split; [done|]. split; [by apply all_exited_probing|].
  apply (Hexit 0%nat).
  destruct (workers s !! 0%nat) as [x|] eqn:Hx.
  - by rewrite (all_exited_lookup _ _ _ Hrc Hx).
  - apply lookup_ge_None in Hx. rewrite Hws in Hx. unfold numWorkers in Hx. lia.
Qed.

(** X12. When [main] returns nothing is cut off: all 10 workers have
    returned, both channels are closed and empty, and no goroutine has an
    action left. *)
Theorem exit_is_quiescent fs sched s :
  main fs sched = ExitOk s →
  workers s = replicate numWorkers WExit
  ∧ jobs s = [] ∧ jobs_closed s = true
  ∧ results s = [] ∧ results_closed s = true
  ∧ ∀ ev, step ev s = None.
Proof.
  intros Hmain.
  destruct (main_running fs sched s (or_introl Hmain))
    as (loaded & Hload & Hcap & Hexec & Hinv).
  pose proof (main_ExitOk_done _ _ _ Hmain) as Hpc.
  destruct Hinv as [Hdom Hws Hclosed _ Hexit Hrc Hdone _].
  destruct (Hdone Hpc) as [Hres Hcl]. specialize (Hrc Hcl).
  assert (Hall : ∀ w x, workers s !! w = Some x → x = WExit).
  { intros w x. by apply all_exited_lookup. }
  assert (H0 : workers s !! 0%nat = Some WExit).
  { destruct (workers s !! 0%nat) as [x|] eqn:Hx.
    - by rewrite (Hall _ _ Hx).
    - apply lookup_ge_None in Hx. rewrite Hws in Hx. unfold numWorkers in Hx. lia. }
  destruct (Hexit _ H0) as [Hjobs Hjc].
  split.
  { rewrite <- Hws. apply list_eq. intros w.
    destruct (workers s !! w) as [x|] eqn:Hx.
    - rewrite (Hall _ _ Hx). symmetry. apply lookup_replicate_2.
      by eapply lookup_lt_Some.
    - symmetry. apply lookup_replicate_None. by apply lookup_ge_None. }
  repeat (split; [done|]).
  intros [|w|w script elapsed|w| | |codes cats]; simpl; rewrite ?Hpc; try done.
  - destruct (workers s !! w) as [x|] eqn:Hx; [|done]. by rewrite (Hall _ _ Hx).
  - destruct (workers s !! w) as [x|] eqn:Hx; [|done]. by rewrite (Hall _ _ Hx).
  - destruct (workers s !! w) as [x|] eqn:Hx; [|done]. by rewrite (Hall _ _ Hx).
Qed.

(** X13. No run gets stuck and every run ends: whatever a run has done so
    far, it can go on until [main] returns, and the whole run then takes at
    most 1014 actions. *)
Theorem unfinished_run_can_complete fs sched s :
  main fs sched = Unfinished s →
  ∃ sched' s', main fs (sched ++ sched') = ExitOk s'
               ∧ (length (sched ++ sched') ≤ 1014)%nat.
Proof.
  intros Hmain.
  destruct (main_running fs sched s (or_intror Hmain))
    as (loaded & Hload & Hcap & Hexec & Hinv).
  destruct (can_complete _ _ Hinv) as (sched' & s' & Hexec' & Hpc).
  exists sched', s'.
  pose proof (exec_app _ sched' _ _ Hexec) as Happ. rewrite Hexec' in Happ.
  split.
  - unfold main. rewrite (main_start_loaded _ _ Hload).
    destruct (Nat.leb_spec 200 (cap loaded)); [|lia].
    by rewrite Happ, Hpc.
  - apply exec_weight in Happ. revert Happ. unfold weight at 2. simpl.
    rewrite length_take. unfold cap in Hcap. lia.
Qed.


End Prober.

(** * The claims on concrete runs *)

(** C2 on a file of three rows. *)
Lemma ReadDomainsFromCSV_valid_file_witness :
  ∃ ds, ReadDomainsFromCSV nextslicecap (example_fs 3) csvFile = (ds, None)
        ∧ len ds = 3%nat
        ∧ elems ds = [mkDomain "site0.example" "cat0";
                      mkDomain "site1.example" "cat1";
                      mkDomain "site2.example" "cat2"].
Proof.
  apply (ReadDomainsFromCSV_valid_file nextslicecap (example_fs 3) csvFile
           ["domain"; "category"] (example_rows 3)).
  - reflexivity.
  - vm_compute. repeat constructor.
  - vm_compute. repeat constructor.
Defined.

(** C3 on a one-column file: both rows are skipped. *)
Lemma ReadDomainsFromCSV_short_rows_skipped_witness :
  ∃ ds, ReadDomainsFromCSV nextslicecap one_column_fs csvFile = (ds, None)
        ∧ elems ds = []
        ∧ ∀ r, r ∈ [["a.example"]; ["b.example"]] → (length r < 2)%nat →
               r ∉ @nil (list string).
Proof.
  apply (ReadDomainsFromCSV_short_rows_skipped nextslicecap one_column_fs csvFile
           ["domain"] [["a.example"]; ["b.example"]]).
  - reflexivity.
  - repeat constructor.
Defined.

(** C3, counterexample to skipping every short row: in a two-column file
    the one-column row makes the loader return an error, where the file
    without that row loads. *)
Lemma short_row_raises_error :
  ¬ (∀ ds, ReadDomainsFromCSV nextslicecap no_row_fs csvFile = (ds, None) →
           ∃ ds', ReadDomainsFromCSV nextslicecap short_row_fs csvFile = (ds', None)
                  ∧ elems ds' = elems ds).
Proof.
  intros Hclaim. destruct (Hclaim nil_slice eq_refl) as (ds' & Hload & _).
  vm_compute in Hload. discriminate Hload.
Qed.

(** C1 on a run over a file of 250 rows. *)
Lemma completed_run_counts_every_job_witness :
  let fs := example_fs 250 in
  let sched := example_schedule nextslicecap example_NewRequest_err 250 in
  let s := Outcome_state (main nextslicecap example_NewRequest_err fs sched) in
  let loaded := fst (ReadDomainsFromCSV nextslicecap fs csvFile) in
  len loaded = 250%nat
  ∧ main nextslicecap example_NewRequest_err fs sched = ExitOk s
  ∧ domains s = take 200 (elems loaded)
  ∧ length (domains s) = 200%nat
  ∧ ∃ rs, tally s = fst (process_results Tally_init rs)
          ∧ map Result_Domain rs ≡ₚ take 200 (elems loaded)
          ∧ length rs = 200%nat
          ∧ successful (tally s) + failed (tally s) = 200.
Proof.
  intros fs sched s loaded.
  assert (Hload : ReadDomainsFromCSV nextslicecap fs csvFile = (loaded, None))
    by (vm_compute; reflexivity).
  assert (Hlen : len loaded = 250%nat) by (vm_compute; reflexivity).
  assert (Hmain : main nextslicecap example_NewRequest_err fs sched = ExitOk s)
    by (vm_compute; reflexivity).
  split; [exact Hlen|]. split; [exact Hmain|].
  apply (completed_run_counts_every_job nextslicecap example_NewRequest_err
           fs sched s loaded Hload).
  - rewrite Hlen. lia.
  - exact Hmain.
Defined.

(** C1, counterexample to counting every loaded domain: 201 domains are
    loaded, the run completes, and 200 results are counted. *)
Lemma counted_differs_from_loaded :
  len (fst (ReadDomainsFromCSV nextslicecap (example_fs 201) csvFile)) = 201%nat
  ∧ Outcome_counted (example_run nextslicecap example_NewRequest_err 201) = Some 200
  ∧ ¬ (∀ s, example_run nextslicecap example_NewRequest_err 201 = ExitOk s →
            successful (tally s) + failed (tally s)
            = Z.of_nat (len (fst (ReadDomainsFromCSV nextslicecap
                                     (example_fs 201) csvFile)))).
Proof.
  assert (Hlen : len (fst (ReadDomainsFromCSV nextslicecap (example_fs 201) csvFile))
                 = 201%nat) by (vm_compute; reflexivity).
  assert (Hrun : Outcome_counted (example_run nextslicecap example_NewRequest_err 201)
                 = Some 200) by (vm_compute; reflexivity).
  split; [done|]. split; [done|].
  intros Hclaim. rewrite Hlen in Hclaim.
  destruct (example_run nextslicecap example_NewRequest_err 201) as [| |s| |];
    try discriminate Hrun.
  specialize (Hclaim s eq_refl). simpl in Hrun. injection Hrun as Hrun. lia.
Qed.

(** C5 on the same run. *)
Lemma completed_run_category_sums_witness :
  let fs := example_fs 250 in
  let sched := example_schedule nextslicecap example_NewRequest_err 250 in
  let s := Outcome_state (main nextslicecap example_NewRequest_err fs sched) in
  main nextslicecap example_NewRequest_err fs sched = ExitOk s
  ∧ sum_stats Total (categoryStats (tally s)) = Z.of_nat (length (domains s))
  ∧ sum_stats Success (categoryStats (tally s)) = successful (tally s)
  ∧ sum_stats Failed (categoryStats (tally s)) = failed (tally s).
Proof.
  intros fs sched s.
  assert (Hmain : main nextslicecap example_NewRequest_err fs sched = ExitOk s)
    by (vm_compute; reflexivity).
  split; [exact Hmain|].
  exact (completed_run_category_sums nextslicecap example_NewRequest_err
           fs sched s Hmain).
Defined.

(** C10 on the same run, for the category "cat1". *)
Lemma category_total_is_success_plus_failed_witness :
  let fs := example_fs 250 in
  let sched := example_schedule nextslicecap example_NewRequest_err 250 in
  let s := Outcome_state (main nextslicecap example_NewRequest_err fs sched) in
  categoryStats (tally s) !! "cat1" = Some (mkStats 67 67 0)
  ∧ 67 = 67 + 0 ∧ 67 = int_add 67 0.
Proof.
  intros fs sched s.
  assert (Hmain : main nextslicecap example_NewRequest_err fs sched = ExitOk s)
    by (vm_compute; reflexivity).
  assert (Hlook : categoryStats (tally s) !! "cat1" = Some (mkStats 67 67 0))
    by (vm_compute; reflexivity).
  split; [exact Hlook|].
  exact (category_total_is_success_plus_failed nextslicecap example_NewRequest_err
           fs sched s "cat1" (mkStats 67 67 0) (or_introl Hmain) Hlook).
Defined.

(** C4 on the header-only file. *)
Lemma header_only_file_panics_witness :
  ReadDomainsFromCSV nextslicecap no_row_fs csvFile = (nil_slice, None)
  ∧ main nextslicecap example_NewRequest_err no_row_fs [] = ExitPanic 200 0
  ∧ Outcome_trace (main nextslicecap example_NewRequest_err no_row_fs []) = [].
Proof.
  apply (header_only_file_panics nextslicecap example_NewRequest_err
           no_row_fs ["domain"; "category"] []).
  reflexivity.
Defined.

(** C9 on a file of three rows (capacity 4). *)
Lemma reslice_panics_below_capacity_witness :
  main nextslicecap example_NewRequest_err (example_fs 3) [] = ExitPanic 200 4
  ∧ Outcome_trace (main nextslicecap example_NewRequest_err (example_fs 3) []) = [].
Proof.
  assert (Hload : ReadDomainsFromCSV nextslicecap (example_fs 3) csvFile
                  = (fst (ReadDomainsFromCSV nextslicecap (example_fs 3) csvFile), None))
    by (vm_compute; reflexivity).
  destruct (reslice_panics_below_capacity nextslicecap example_NewRequest_err
              (example_fs 3) _ [] Hload) as [Hpanic _].
  apply Hpanic. vm_compute. lia.
Defined.

(** C9, counterexample to a panic for every short load: 160 domains are
    loaded, fewer than 200, and [main] starts the workers, on 200 entries. *)
Lemma short_load_does_not_panic :
  (len (fst (ReadDomainsFromCSV nextslicecap (example_fs 160) csvFile)) < 200)%nat
  ∧ (∃ s0, main_start nextslicecap (example_fs 160) = Started s0
           ∧ length (domains s0) = 200%nat)
  ∧ ∀ sched high capacity,
      main nextslicecap example_NewRequest_err (example_fs 160) sched
      ≠ ExitPanic high capacity.
Proof.
  assert (Hload : ReadDomainsFromCSV nextslicecap (example_fs 160) csvFile
                  = (fst (ReadDomainsFromCSV nextslicecap (example_fs 160) csvFile), None))
    by (vm_compute; reflexivity).
  pose proof (main_start_loaded nextslicecap _ _ Hload) as Hstart.
  assert (Hcap : (200 <=? cap (fst (ReadDomainsFromCSV nextslicecap
                                      (example_fs 160) csvFile)))%nat = true)
    by (vm_compute; reflexivity).
  rewrite Hcap in Hstart.
  split; [vm_compute; lia|]. split.
  - eexists. split; [exact Hstart|]. vm_compute. reflexivity.
  - intros sched high capacity. unfold main. rewrite Hstart.
    destruct (exec _ sched _) as [s|]; [|done]. by destruct (pc s).
Qed.



(** C8 on the state in which worker 0 holds a job. *)
Lemma worker_emits_one_result_witness :
  ∃ r s', fst (fst (worker_body example_NewRequest_err
                      (mkDomain "bad host" "test") [] 5)) = [r]
          ∧ step example_NewRequest_err (EvProbe 0 [] 5)
                 (holding_state example_NewRequest_err) = Some s'
          ∧ results s' = [r].
Proof.
  destruct (worker_emits_one_result example_NewRequest_err two_domains
              (holding_state example_NewRequest_err)
              0%nat (mkDomain "bad host" "test") [] 5)
    as (r & s' & Hone & Hstep & Hres & _).
  - apply (exec_Inv example_NewRequest_err two_domains
             [EvSend; EvSend; EvSend; EvRecvJob 0] (init_state two_domains)).
    + apply init_state_Inv.
    + reflexivity.
  - reflexivity.
  - exists r, s'. split; [exact Hone|]. split; [exact Hstep|exact Hres].
Defined.

(** * The further properties on concrete files and runs *)

(** X1 on a file of three rows. *)
Lemma ReadDomainsFromCSV_success_witness :
  let ds := fst (ReadDomainsFromCSV nextslicecap (example_fs 3) csvFile) in
  ReadDomainsFromCSV nextslicecap (example_fs 3) csvFile = (ds, None)
  ∧ ∃ header rows,
      example_fs 3 csvFile = csv_file header rows
      ∧ elems ds = map row_domain (filter (λ r, 2 ≤ length r)%nat rows)
      ∧ (len ds ≤ length rows)%nat ∧ (len ds ≤ cap ds)%nat.
Proof.
  intros ds.
  assert (Hload : ReadDomainsFromCSV nextslicecap (example_fs 3) csvFile = (ds, None))
    by (vm_compute; reflexivity).
  split; [exact Hload|].
  exact (ReadDomainsFromCSV_success nextslicecap (example_fs 3) csvFile ds Hload).
Defined.

(** X2 on the same file. *)
Lemma ReadDomainsFromCSV_succeeds_iff_witness :
  snd (ReadDomainsFromCSV nextslicecap (example_fs 3) csvFile) = None
  ↔ ∃ rows, map RawFields (example_rows 3) = map RawFields rows
            ∧ Forall (λ r, length r = length ["domain"; "category"]) rows.
Proof.
  apply (ReadDomainsFromCSV_succeeds_iff nextslicecap (example_fs 3) csvFile
           ["domain"; "category"] (map RawFields (example_rows 3))).
  - reflexivity.
  - discriminate.
Defined.

(** X3 on the file with a short row. *)
Lemma ReadDomainsFromCSV_error_nil_witness :
  let e := fmt_Errorf "error reading record: %v" (csv_ParseError ErrFieldCount) in
  snd (ReadDomainsFromCSV nextslicecap short_row_fs csvFile) = Some e
  ∧ fst (ReadDomainsFromCSV nextslicecap short_row_fs csvFile) = nil_slice
  ∧ ∃ cause, e = fmt_Errorf "error opening file: %v" cause
             ∨ e = fmt_Errorf "error reading header: %v" cause
             ∨ e = fmt_Errorf "error reading record: %v" cause.
Proof.
  intros e.
  assert (Herr : snd (ReadDomainsFromCSV nextslicecap short_row_fs csvFile) = Some e)
    by (vm_compute; reflexivity).
  split; [exact Herr|].
  exact (ReadDomainsFromCSV_error_nil nextslicecap short_row_fs csvFile e Herr).
Defined.

(** X4 on a file of 250 rows. *)
Lemma long_load_never_panics_witness :
  let fs := example_fs 250 in
  let loaded := fst (ReadDomainsFromCSV nextslicecap fs csvFile) in
  len loaded = 250%nat
  ∧ main_start nextslicecap fs = Started (init_state (take 200 (elems loaded)))
  ∧ ∀ high capacity,
      main nextslicecap example_NewRequest_err fs early_schedule
      ≠ ExitPanic high capacity.
Proof.
  intros fs loaded.
  assert (Hload : ReadDomainsFromCSV nextslicecap fs csvFile = (loaded, None))
    by (vm_compute; reflexivity).
  assert (Hlen : len loaded = 250%nat) by (vm_compute; reflexivity).
  split; [exact Hlen|].
  apply (long_load_never_panics nextslicecap example_NewRequest_err
           fs loaded early_schedule Hload).
  rewrite Hlen. lia.
Defined.

(** X5 on three results, for the category "tech" and the status 200. *)
Lemma statistics_are_counts_witness :
  let t := fst (process_results Tally_init example_results) in
  successful t = 2 ∧ failed t = 1
  ∧ categoryStats t !! "tech" = Some (mkStats 2 2 0)
  ∧ statusCodes t !! 200 = Some 1
  ∧ successful t = count (λ r, Error r = None) example_results
  ∧ failed t = count (λ r, Error r ≠ None) example_results
  ∧ default (mkStats 0 0 0) (categoryStats t !! "tech")
    = mkStats (count (λ r, Category (Result_Domain r) = "tech") example_results)
              (count (λ r, Category (Result_Domain r) = "tech" ∧ Error r = None)
                     example_results)
              (count (λ r, Category (Result_Domain r) = "tech" ∧ Error r ≠ None)
                     example_results)
  ∧ (categoryStats t !! "tech" = None
     ↔ count (λ r, Category (Result_Domain r) = "tech") example_results = 0)
  ∧ default 0 (statusCodes t !! 200)
    = count (λ r, Error r = None ∧ StatusCode r = 200) example_results
  ∧ (statusCodes t !! 200 = None
     ↔ count (λ r, Error r = None ∧ StatusCode r = 200) example_results = 0).
Proof.
  intros t.
  split; [vm_compute; reflexivity|]. split; [vm_compute; reflexivity|].
  split; [vm_compute; reflexivity|]. split; [vm_compute; reflexivity|].
  apply (statistics_are_counts example_results "tech" 200).
  vm_compute. reflexivity.
Defined.

(** X6 on the run over a file of 250 rows, for the category "cat1". *)
Lemma completed_run_category_totals_witness :
  let fs := example_fs 250 in
  let sched := example_schedule nextslicecap example_NewRequest_err 250 in
  let s := Outcome_state (main nextslicecap example_NewRequest_err fs sched) in
  main nextslicecap example_NewRequest_err fs sched = ExitOk s
  ∧ Total (default (mkStats 0 0 0) (categoryStats (tally s) !! "cat1"))
    = count (λ d, Category d = "cat1") (domains s)
  ∧ (is_Some (categoryStats (tally s) !! "cat1")
     ↔ ∃ d, d ∈ domains s ∧ Category d = "cat1").
Proof.
  intros fs sched s.
  assert (Hmain : main nextslicecap example_NewRequest_err fs sched = ExitOk s)
    by (vm_compute; reflexivity).
  split; [exact Hmain|].
  exact (completed_run_category_totals nextslicecap example_NewRequest_err
           fs sched s "cat1" Hmain).
Defined.

(** X7 on the same run. *)
Lemma completed_run_status_histogram_witness :
  let fs := example_fs 250 in
  let sched := example_schedule nextslicecap example_NewRequest_err 250 in
  let s := Outcome_state (main nextslicecap example_NewRequest_err fs sched) in
  main nextslicecap example_NewRequest_err fs sched = ExitOk s
  ∧ sum_codes (statusCodes (tally s)) = successful (tally s)
  ∧ ∀ code k, statusCodes (tally s) !! code = Some k →
              0 < k ≤ successful (tally s).
Proof.
  intros fs sched s.
  assert (Hmain : main nextslicecap example_NewRequest_err fs sched = ExitOk s)
    by (vm_compute; reflexivity).
  split; [exact Hmain|].
  exact (completed_run_status_histogram nextslicecap example_NewRequest_err
           fs sched s Hmain).
Defined.

(** X8 on the same run. *)
Lemma completed_run_output_witness :
  let fs := example_fs 250 in
  let sched := example_schedule nextslicecap example_NewRequest_err 250 in
  let s := Outcome_state (main nextslicecap example_NewRequest_err fs sched) in
  main nextslicecap example_NewRequest_err fs sched = ExitOk s
  ∧ ∃ rs codes cats,
      map Result_Domain rs ≡ₚ domains s
      ∧ tally s = fst (process_results Tally_init rs)
      ∧ codes ≡ₚ map_to_list (statusCodes (tally s))
      ∧ cats ≡ₚ map_to_list (categoryStats (tally s))
      ∧ printed (trace s)
        = start_lines 200 ++ banner_lines ++ map result_line rs
          ++ summary 200 (tally s) codes cats.
Proof.
  intros fs sched s.
  assert (Hmain : main nextslicecap example_NewRequest_err fs sched = ExitOk s)
    by (vm_compute; reflexivity).
  split; [exact Hmain|].
  exact (completed_run_output nextslicecap example_NewRequest_err
           fs sched s Hmain).
Defined.

(** X9 on the same run. *)
Lemma run_requests_witness :
  let fs := example_fs 250 in
  let sched := example_schedule nextslicecap example_NewRequest_err 250 in
  let s := Outcome_state (main nextslicecap example_NewRequest_err fs sched) in
  main nextslicecap example_NewRequest_err fs sched = ExitOk s
  ∧ requested (trace s) ⊆+ omap (request_of example_NewRequest_err) (domains s)
  ∧ (pc s = MDone
     → requested (trace s) ≡ₚ omap (request_of example_NewRequest_err) (domains s)).
Proof.
  intros fs sched s.
  assert (Hmain : main nextslicecap example_NewRequest_err fs sched = ExitOk s)
    by (vm_compute; reflexivity).
  split; [exact Hmain|].
  exact (run_requests nextslicecap example_NewRequest_err
           fs sched s (or_introl Hmain)).
Defined.

(** X10 on a run that has just begun. *)
Lemma sends_never_block_witness :
  let fs := example_fs 250 in
  let s := Outcome_state (main nextslicecap example_NewRequest_err fs early_schedule) in
  main nextslicecap example_NewRequest_err fs early_schedule = Unfinished s
  ∧ (length (jobs s) ≤ length (domains s))%nat
  ∧ (length (results s) ≤ length (domains s))%nat
  ∧ (length (probing (workers s)) ≤ numWorkers)%nat
  ∧ (∀ domain rest, pc s = MSend (domain :: rest)
                    → is_Some (step example_NewRequest_err EvSend s))
  ∧ (∀ w domain script elapsed,
       workers s !! w = Some (WProbing domain) →
       is_Some (step example_NewRequest_err (EvProbe w script elapsed) s)).
Proof.
  intros fs s.
  assert (Hmain : main nextslicecap example_NewRequest_err fs early_schedule
                  = Unfinished s) by (vm_compute; reflexivity).
  split; [exact Hmain|].
  exact (sends_never_block nextslicecap example_NewRequest_err
           fs early_schedule s (or_intror Hmain)).
Defined.

(** X11 on the completed run. *)
Lemma channels_closed_in_order_witness :
  let fs := example_fs 250 in
  let sched := example_schedule nextslicecap example_NewRequest_err 250 in
  let s := Outcome_state (main nextslicecap example_NewRequest_err fs sched) in
  main nextslicecap example_NewRequest_err fs sched = ExitOk s
  ∧ (jobs_closed s = true → unsent (pc s) = [])
  ∧ (∀ w, workers s !! w = Some WExit → jobs s = [] ∧ jobs_closed s = true)
  ∧ (results_closed s = true →
     all_exited (workers s) = true ∧ probing (workers s) = []
     ∧ jobs s = [] ∧ jobs_closed s = true)
  ∧ (pc s = MDone → results s = [] ∧ results_closed s = true).
Proof.
  intros fs sched s.
  assert (Hmain : main nextslicecap example_NewRequest_err fs sched = ExitOk s)
    by (vm_compute; reflexivity).
  split; [exact Hmain|].
  exact (channels_closed_in_order nextslicecap example_NewRequest_err
           fs sched s (or_introl Hmain)).
Defined.

(** X12 on the same run. *)
Lemma exit_is_quiescent_witness :
  let fs := example_fs 250 in
  let sched := example_schedule nextslicecap example_NewRequest_err 250 in
  let s := Outcome_state (main nextslicecap example_NewRequest_err fs sched) in
  main nextslicecap example_NewRequest_err fs sched = ExitOk s
  ∧ workers s = replicate numWorkers WExit
  ∧ jobs s = [] ∧ jobs_closed s = true
  ∧ results s = [] ∧ results_closed s = true
  ∧ ∀ ev, step example_NewRequest_err ev s = None.
Proof.
  intros fs sched s.
  assert (Hmain : main nextslicecap example_NewRequest_err fs sched = ExitOk s)
    by (vm_compute; reflexivity).
  split; [exact Hmain|].
  exact (exit_is_quiescent nextslicecap example_NewRequest_err
           fs sched s Hmain).
Defined.

(** X13 on the run that has just begun. *)
Lemma unfinished_run_can_complete_witness :
  let fs := example_fs 250 in
  let s := Outcome_state (main nextslicecap example_NewRequest_err fs early_schedule) in
  main nextslicecap example_NewRequest_err fs early_schedule = Unfinished s
  ∧ ∃ sched' s',
      main nextslicecap example_NewRequest_err fs (early_schedule ++ sched') = ExitOk s'
      ∧ (length (early_schedule ++ sched') ≤ 1014)%nat.
Proof.
  intros fs s.
  assert (Hmain : main nextslicecap example_NewRequest_err fs early_schedule
                  = Unfinished s) by (vm_compute; reflexivity).
  split; [exact Hmain|].
  exact (unfinished_run_can_complete nextslicecap example_NewRequest_err
           fs early_schedule s Hmain).
Defined.
